(** * whatsapp-bridge: the message store and the two ingestion paths

    A shallow embedding of [whatsapp-mcp/whatsapp-bridge/main.go].

    The SQLite database [store/messages.db] is modelled by its logical
    content: two tables, each a list of rows in rowid order, with the
    constraints of the schema of [NewMessageStore] (a primary key per table,
    a foreign key from [messages.chat_jid] to [chats.jid], enforced because
    the connection string sets [_foreign_keys=on]).  Failures of the medium
    (disk full, permissions) are outside the model: a statement fails only
    when a constraint of the schema rejects it. *)

From stdpp Require Import base option list sorting strings gmap.
From Stdlib Require Import ZArith Ascii.

Local Open Scope string_scope.
Local Open Scope list_scope.
Local Open Scope Z_scope.

(** ** Time

    [time.Time] at the resolution the layout ["2006-01-02 15:04:05"] keeps:
    whole seconds since the Unix epoch.  A TIMESTAMP column holds the
    formatted instant; the model stores the instant itself. *)

Definition Time := Z.

(** [time.Unix(int64(ts), 0)] for a [uint64] protobuf timestamp: the
    conversion to [int64] wraps around. *)
Definition int64 (ts : Z) : Z :=
  if ts <? 2 ^ 63 then ts else ts - 2 ^ 64.

Definition time_Unix (sec : Z) : Time := sec.

(** ** The tables *)

Module ChatRow.
Record t := mk { jid : string; name : string; last_message_time : Time }.
End ChatRow.

Module MessageRow.
Record t := mk {
  id : string;
  chat_jid : string;
  sender : string;
  content : string;
  timestamp : Time;
  is_from_me : bool;
  media_type : string
}.

(** The composite primary key [(id, chat_jid)]. *)
Definition key (r : t) : string * string := (id r, chat_jid r).
End MessageRow.

#[global] Instance ChatRow_eq_dec : EqDecision ChatRow.t.
Proof. solve_decision. Defined.

#[global] Instance MessageRow_eq_dec : EqDecision MessageRow.t.
Proof. solve_decision. Defined.

(** [MessageStore]: the handle is the database it points to. *)
Record MessageStore := mkStore {
  chats : list ChatRow.t;
  messages : list MessageRow.t
}.

(** The database right after its file is created. *)
Definition empty_store : MessageStore := mkStore [] [].

(** [NewMessageStore] opens [store/messages.db]; [CREATE TABLE IF NOT EXISTS]
    creates the two tables empty when the file is new and keeps them
    otherwise. *)
Definition NewMessageStore (file : option MessageStore) : MessageStore :=
  default empty_store file.

(** Go's [error] result of [db.Exec]. *)
Inductive error :=
  | ForeignKeyConstraintFailed.

#[global] Instance error_eq_dec : EqDecision error.
Proof. solve_decision. Defined.

(** ** SQL statements *)

(** [INSERT OR REPLACE INTO chats]: the row holding the same primary key is
    deleted and the new row gets the next rowid.  The foreign key of
    [messages] is checked when the statement ends, where the parent key is
    present again. *)
Definition replace_chat (r : ChatRow.t) (tbl : list ChatRow.t) : list ChatRow.t :=
  filter (λ x, ChatRow.jid x ≠ ChatRow.jid r) tbl ++ [r].

(** [INSERT OR REPLACE INTO messages], same conflict resolution on
    [(id, chat_jid)]. *)
Definition replace_message (r : MessageRow.t) (tbl : list MessageRow.t)
  : list MessageRow.t :=
  filter (λ x, MessageRow.key x ≠ MessageRow.key r) tbl ++ [r].

(** [SELECT ... FROM chats WHERE jid = ?] *)
Definition select_chat (chatJID : string) (tbl : list ChatRow.t) : list ChatRow.t :=
  filter (λ x, ChatRow.jid x = chatJID) tbl.

(** [SELECT ... FROM messages WHERE id = ? AND chat_jid = ?] *)
Definition select_message (k : string * string) (tbl : list MessageRow.t)
  : list MessageRow.t :=
  filter (λ x, MessageRow.key x = k) tbl.

Definition chat_exists (chatJID : string) (store : MessageStore) : Prop :=
  chatJID ∈ ChatRow.jid <$> chats store.

#[global] Instance chat_exists_dec chatJID store : Decision (chat_exists chatJID store).
Proof. unfold chat_exists. apply _. Defined.

(** ** [StoreChat] *)

Definition StoreChat (store : MessageStore) (jid name : string)
    (lastMessageTime : Time) : MessageStore * option error :=
  let formattedTime := lastMessageTime in
  (mkStore (replace_chat (ChatRow.mk jid name formattedTime) (chats store))
           (messages store),
   None).

(** ** [StoreMessage] *)

(** The row bound to the statement's parameters, after the sender default. *)
Definition message_row (id chatJID sender content : string) (timestamp : Time)
    (isFromMe : bool) (mediaType : string) : MessageRow.t :=
  let sender := if decide (sender = "") then "unknown" else sender in
  let formattedTime := timestamp in
  MessageRow.mk id chatJID sender content formattedTime isFromMe mediaType.

Definition exec_insert_message (store : MessageStore) (r : MessageRow.t)
  : MessageStore * option error :=
  if decide (chat_exists (MessageRow.chat_jid r) store)
  then (mkStore (chats store) (replace_message r (messages store)), None)
  else (store, Some ForeignKeyConstraintFailed).

Definition StoreMessage (store : MessageStore) (id chatJID sender content : string)
    (timestamp : Time) (isFromMe : bool) (mediaType : string)
  : MessageStore * option error :=
  if decide (content = "") then (store, None)
  else exec_insert_message store
         (message_row id chatJID sender content timestamp isFromMe mediaType).

(** ** [GetChats] *)

(** [time.Time{}], the instant reported when the stored text does not parse. *)
Definition zero_time : Time := -62135596800.

(** [ORDER BY last_message_time DESC]: [a] comes no later than [b]. *)
Definition later_first (a b : ChatRow.t) : Prop :=
  ChatRow.last_message_time b ≤ ChatRow.last_message_time a.

#[global] Instance later_first_dec a b : Decision (later_first a b).
Proof. unfold later_first. apply _. Defined.

(** [SELECT jid, last_message_time FROM chats ORDER BY last_message_time DESC] *)
Definition query_chats (tbl : list ChatRow.t) : list (string * Time) :=
  (λ r, (ChatRow.jid r, ChatRow.last_message_time r)) <$> merge_sort later_first tbl.

(** The [rows.Next] loop: [chats[jid] = lastMessageTime] into a Go map.
    [parse] stands for [rows.Scan] into a string followed by [time.Parse]. *)
Definition scan_chats (parse : Time → option Time) (rows : list (string * Time))
  : gmap string Time :=
  foldl (λ chats row, <[row.1 := default zero_time (parse row.2)]> chats) ∅ rows.

Definition GetChats (parse : Time → option Time) (store : MessageStore)
  : gmap string Time :=
  scan_chats parse (query_chats (chats store)).

(** ** Types of the protocol library

    [go.mau.fi/whatsmeow] is not part of the repository; its types are
    modelled by the fields the bridge reads, with Go's nil pointers as
    [None]. *)

Module JID.
(** [types.JID], its [User] and [Server] parts. *)
Record t := mk { User : string; Server : string }.

(** [JID.String] of an address without agent or device. *)
Definition String (j : t) : string :=
  if decide (User j = "") then Server j else User j +:+ "@" +:+ Server j.
End JID.

(** Go's [(value, error)] results whose error text is used. *)
Inductive result (A : Type) :=
  | Ok (a : A)
  | Err (msg : string).
Arguments Ok {A} a.
Arguments Err {A} msg.

(** [waProto.Message]: a protobuf struct of independent optional fields,
    read through nil-safe getters. *)
Record ExtendedTextMessage := mkExtendedText { Text : option string }.

Record ProtoMessage := mkProto {
  Conversation : option string;
  ExtendedText : option ExtendedTextMessage;
  ImageMessage : bool;      (* [GetImageMessage() != nil] *)
  VideoMessage : bool;
  AudioMessage : bool;
  DocumentMessage : bool
}.

Definition GetConversation (msg : option ProtoMessage) : string :=
  match msg with
  | Some m => default "" (Conversation m)
  | None => ""
  end.

Definition GetExtendedTextMessage (msg : option ProtoMessage)
  : option ExtendedTextMessage :=
  msg ≫= ExtendedText.

Definition GetText (ext : ExtendedTextMessage) : string := default "" (Text ext).

Definition GetImageMessage (msg : option ProtoMessage) : bool :=
  match msg with Some m => ImageMessage m | None => false end.
Definition GetVideoMessage (msg : option ProtoMessage) : bool :=
  match msg with Some m => VideoMessage m | None => false end.
Definition GetAudioMessage (msg : option ProtoMessage) : bool :=
  match msg with Some m => AudioMessage m | None => false end.
Definition GetDocumentMessage (msg : option ProtoMessage) : bool :=
  match msg with Some m => DocumentMessage m | None => false end.

(** [events.Message] with its [types.MessageInfo]. *)
Record MessageInfo := mkInfo {
  Chat : JID.t;
  Sender : JID.t;
  IsFromMe : bool;
  ID : string;
  Timestamp : Time
}.

Record EventsMessage := mkEventsMessage {
  Info : MessageInfo;
  Message : option ProtoMessage
}.

(** History sync: [waProto.Conversation] holding [HistorySyncMsg] envelopes
    around a [WebMessageInfo]. *)
Record MessageKey := mkKey {
  FromMe : option bool;
  Participant : option string;
  KeyID : option string
}.

Record WebMessageInfo := mkWeb {
  Key : option MessageKey;
  WebMessage : option ProtoMessage;
  MessageTimestamp : option Z     (* uint64 *)
}.

Definition GetMessageTimestamp (m : WebMessageInfo) : Z :=
  default 0 (MessageTimestamp m).

Record HistorySyncMsg := mkHistoryMsg { HistMessage : option WebMessageInfo }.

Record Conversation_ := mkConversation {
  ConvID : option string;
  DisplayName : option string;
  Name : option string;
  Messages : list (option HistorySyncMsg)
}.

Record HistorySync := mkHistorySync { Conversations : list Conversation_ }.

Record GroupInfo := mkGroupInfo { GroupName : string }.
Record ContactInfo := mkContactInfo { FullName : string }.

(** Calls into the session, recorded in the order they are made. *)
Inductive SessionCall :=
  | CallGetGroupInfo (jid : JID.t)
  | CallGetContact (jid : JID.t)
  | CallSendMessage (to : JID.t) (text : string).

#[global] Instance JID_eq_dec : EqDecision JID.t.
Proof. solve_decision. Defined.

#[global] Instance SessionCall_eq_dec : EqDecision SessionCall.
Proof. solve_decision. Defined.

(** [*whatsmeow.Client] as the bridge uses it.  A lookup answers [None] when
    the library returns an error.  [ParseJID] is the package function
    [types.ParseJID], carried along with the session. *)
Record Client := mkClient {
  IsConnected : bool;
  ParseJID : string → result JID.t;
  GetGroupInfo : JID.t → option GroupInfo;
  GetContact : JID.t → option ContactInfo;
  StoreID : option JID.t;
  SendMessage : JID.t → string → option string   (* the error text, if any *)
}.

(** ** [extractTextContent] *)

Definition extractTextContent (msg : option ProtoMessage) : string :=
  match msg with
  | None => ""
  | Some _ =>
      let text := GetConversation msg in
      if decide (text ≠ "") then text
      else match GetExtendedTextMessage msg with
           | Some extendedText => GetText extendedText
           | None => ""
           end
  end.

(** ** [GetChatName]

    The result is paired with the session lookups the call performed. *)

(** The reflection block: [DisplayName] and [Name] of the conversation
    passed by the history path, [displayName] first. *)
Definition conversation_name (conversation : option Conversation_) : string :=
  match conversation with
  | None => ""
  | Some conv =>
      match DisplayName conv with
      | Some dn =>
          if decide (dn ≠ "") then dn
          else match Name conv with
               | Some n => if decide (n ≠ "") then n else ""
               | None => ""
               end
      | None =>
          match Name conv with
          | Some n => if decide (n ≠ "") then n else ""
          | None => ""
          end
      end
  end.

(** [QueryRow("SELECT name FROM chats WHERE jid = ?").Scan(&existingName)]:
    the first row, or [sql.ErrNoRows]. *)
Definition query_chat_name (store : MessageStore) (chatJID : string) : option string :=
  ChatRow.name <$> head (select_chat chatJID (chats store)).

(** The part of [GetChatName] below its early return: the name is looked
    up in the session. *)
Definition determine_chat_name (client : Client) (jid : JID.t)
    (conversation : option Conversation_) (sender : string)
  : string * list SessionCall :=
  if decide (JID.Server jid = "g.us") then
    let name := conversation_name conversation in
    if decide (name = "") then
      match GetGroupInfo client jid with
      | Some groupInfo =>
          if decide (GroupName groupInfo ≠ "")
          then (GroupName groupInfo, [CallGetGroupInfo jid])
          else ("Group " +:+ JID.User jid, [CallGetGroupInfo jid])
      | None => ("Group " +:+ JID.User jid, [CallGetGroupInfo jid])
      end
    else (name, [])
  else
    match GetContact client jid with
    | Some contact =>
        if decide (FullName contact ≠ "") then (FullName contact, [CallGetContact jid])
        else if decide (sender ≠ "") then (sender, [CallGetContact jid])
        else (JID.User jid, [CallGetContact jid])
    | None =>
        if decide (sender ≠ "") then (sender, [CallGetContact jid])
        else (JID.User jid, [CallGetContact jid])
    end.

Definition GetChatName (client : Client) (messageStore : MessageStore)
    (jid : JID.t) (chatJID : string) (conversation : option Conversation_)
    (sender : string) : string * list SessionCall :=
  match query_chat_name messageStore chatJID with
  | Some existingName =>
      if decide (existingName ≠ "") then (existingName, [])
      else determine_chat_name client jid conversation sender
  | None => determine_chat_name client jid conversation sender
  end.

(** ** Writes, as a ghost log

    A handler's result carries the rows it wrote, in order: one entry per
    statement that ended without error and changed a table. *)

Inductive Write :=
  | WriteChat (jid : string)
  | WriteMessage (id chatJID : string).

#[global] Instance Write_eq_dec : EqDecision Write.
Proof. solve_decision. Defined.

Definition chat_write (err : option error) (jid : string) : list Write :=
  match err with None => [WriteChat jid] | Some _ => [] end.

Definition message_write (content : string) (err : option error)
    (id chatJID : string) : list Write :=
  if decide (content = "") then []
  else match err with None => [WriteMessage id chatJID] | Some _ => [] end.

(** ** [handleMessage] *)

Definition handleMessage (client : Client) (messageStore : MessageStore)
    (msg : EventsMessage) : MessageStore * list Write :=
  let chatJID := JID.String (Chat (Info msg)) in
  let sender := JID.User (Sender (Info msg)) in
  let name := (GetChatName client messageStore (Chat (Info msg)) chatJID None sender).1 in
  let '(store1, err1) := StoreChat messageStore chatJID name (Timestamp (Info msg)) in
  let content := extractTextContent (Message msg) in
  if decide (content = "") then (store1, chat_write err1 chatJID)
  else
    let '(store2, err2) :=
      StoreMessage store1 (ID (Info msg)) chatJID sender content
                   (Timestamp (Info msg)) (IsFromMe (Info msg)) "text" in
    (store2, chat_write err1 chatJID ++ message_write content err2 (ID (Info msg)) chatJID).

(** ** [handleHistorySync] *)

(** The loops run until the slice ends or a nil pointer is dereferenced
    ([client.Store.ID] of a session that is not logged in). *)
Inductive flow :=
  | Continue
  | Panic.

Record SyncState := mkSync {
  sync_store : MessageStore;
  sync_writes : list Write;
  syncedCount : nat
}.

(** Text of a history envelope. *)
Definition history_content (m : WebMessageInfo) : string :=
  match WebMessage m with
  | Some _ =>
      let conv := GetConversation (WebMessage m) in
      if decide (conv ≠ "") then conv
      else match GetExtendedTextMessage (WebMessage m) with
           | Some ext => GetText ext
           | None => ""
           end
  | None => ""
  end.

(** Sender and direction of a history envelope; [None] when the read of
    [client.Store.ID.User] panics. *)
Definition history_sender (client : Client) (jid : JID.t) (m : WebMessageInfo)
  : option (string * bool) :=
  match Key m with
  | Some key =>
      let isFromMe := default false (FromMe key) in
      let participant_set :=
        match Participant key with
        | Some p => bool_decide (p ≠ "")
        | None => false
        end in
      if negb isFromMe && participant_set
      then Some (default "" (Participant key), isFromMe)
      else if isFromMe
           then (λ me, (JID.User me, isFromMe)) <$> StoreID client
           else Some (JID.User jid, isFromMe)
  | None => Some (JID.User jid, false)
  end.

Definition history_msgID (m : WebMessageInfo) : string :=
  match Key m with
  | Some key => default "" (KeyID key)
  | None => ""
  end.

(** Body of the inner loop. *)
Definition store_history_message (client : Client) (jid : JID.t) (chatJID : string)
    (st : SyncState) (msg : option HistorySyncMsg) : SyncState * flow :=
  match msg ≫= HistMessage with
  | None => (st, Continue)
  | Some m =>
      let content := history_content m in
      if decide (content = "") then (st, Continue)
      else
        match history_sender client jid m with
        | None => (st, Panic)
        | Some (sender, isFromMe) =>
            let msgID := history_msgID m in
            let ts := GetMessageTimestamp m in
            if decide (ts = 0) then (st, Continue)
            else
              let timestamp := time_Unix (int64 ts) in
              let '(store', err) :=
                StoreMessage (sync_store st) msgID chatJID sender content
                             timestamp isFromMe "text" in
              match err with
              | Some _ => (mkSync store' (sync_writes st) (syncedCount st), Continue)
              | None =>
                  (mkSync store'
                          (sync_writes st ++ message_write content err msgID chatJID)
                          (S (syncedCount st)),
                   Continue)
              end
        end
  end.

Fixpoint store_history_messages (client : Client) (jid : JID.t) (chatJID : string)
    (messages : list (option HistorySyncMsg)) (st : SyncState) : SyncState * flow :=
  match messages with
  | [] => (st, Continue)
  | msg :: rest =>
      match store_history_message client jid chatJID st msg with
      | (st', Continue) => store_history_messages client jid chatJID rest st'
      | (st', Panic) => (st', Panic)
      end
  end.

(** Body of the outer loop. *)
Definition sync_conversation (client : Client) (st : SyncState)
    (conversation : Conversation_) : SyncState * flow :=
  match ConvID conversation with
  | None => (st, Continue)
  | Some chatJID =>
      match ParseJID client chatJID with
      | Err _ => (st, Continue)
      | Ok jid =>
          let name :=
            (GetChatName client (sync_store st) jid chatJID (Some conversation) "").1 in
          match Messages conversation with
          | [] => (st, Continue)
          | latestMsg :: _ =>
              match latestMsg ≫= HistMessage with
              | None => (st, Continue)
              | Some latest =>
                  let ts := GetMessageTimestamp latest in
                  if decide (ts = 0) then (st, Continue)
                  else
                    let timestamp := time_Unix (int64 ts) in
                    let '(store1, err1) :=
                      StoreChat (sync_store st) chatJID name timestamp in
                    store_history_messages client jid chatJID (Messages conversation)
                      (mkSync store1 (sync_writes st ++ chat_write err1 chatJID)
                              (syncedCount st))
              end
          end
      end
  end.

Fixpoint sync_conversations (client : Client) (conversations : list Conversation_)
    (st : SyncState) : SyncState * flow :=
  match conversations with
  | [] => (st, Continue)
  | conversation :: rest =>
      match sync_conversation client st conversation with
      | (st', Continue) => sync_conversations client rest st'
      | (st', Panic) => (st', Panic)
      end
  end.

Definition handleHistorySync (client : Client) (messageStore : MessageStore)
    (historySync : HistorySync) : SyncState * flow :=
  sync_conversations client (Conversations historySync) (mkSync messageStore [] 0).

(** ** [handleEvent] *)

(** The dynamic type of [evt interface{}]. *)
Inductive Event :=
  | EvtMessage (v : EventsMessage)
  | EvtConnected
  | EvtDisconnected
  | EvtLoggedOut
  | EvtHistorySync (v : HistorySync)
  | EvtOther.

Definition handleEvent (file : MessageStore) (evt : Event) : MessageStore * list Write :=
  match evt with
  | EvtMessage v =>
      let messageStore := NewMessageStore (Some file) in
      let chatJID := JID.String (Chat (Info v)) in
      let sender := JID.String (Sender (Info v)) in
      let content := extractTextContent (Message v) in
      let timestamp := Timestamp (Info v) in
      let isFromMe := IsFromMe (Info v) in
      let mediaType :=
        if GetImageMessage (Message v) then "image"
        else if GetVideoMessage (Message v) then "video"
        else if GetAudioMessage (Message v) then "audio"
        else if GetDocumentMessage (Message v) then "document"
        else "text" in
      let '(store', err) :=
        StoreMessage messageStore (ID (Info v)) chatJID sender content timestamp
                     isFromMe mediaType in
      (store', message_write content err (ID (Info v)) chatJID)
  | EvtConnected | EvtDisconnected | EvtLoggedOut => (file, [])
  | EvtHistorySync _ | EvtOther => (file, [])
  end.

(** ** Executions

    Any interleaving of the three handlers over the one database file, each
    call with the session as it is at that moment. *)

Inductive Call :=
  | CallHandleEvent (evt : Event)
  | CallHandleMessage (client : Client) (msg : EventsMessage)
  | CallHandleHistorySync (client : Client) (historySync : HistorySync).

Definition step (store : MessageStore) (c : Call) : MessageStore * list Write :=
  match c with
  | CallHandleEvent evt => handleEvent store evt
  | CallHandleMessage client msg => handleMessage client store msg
  | CallHandleHistorySync client hs =>
      let st := (handleHistorySync client store hs).1 in
      (sync_store st, sync_writes st)
  end.

Fixpoint run (calls : list Call) (store : MessageStore) (log : list Write)
  : MessageStore * list Write :=
  match calls with
  | [] => (store, log)
  | c :: rest =>
      let '(store', w) := step store c in
      run rest store' (log ++ w)
  end.

(** ** The REST endpoint *)

Module SendMessageRequest.
Record t := mk { Recipient : string; Message : string }.
End SendMessageRequest.

Module SendMessageResponse.
Record t := mk { Success : bool; Message : string }.
End SendMessageResponse.

(** [strings.Contains(recipient, "@")] *)
Fixpoint contains_at (s : string) : bool :=
  match s with
  | EmptyString => false
  | String c rest => if Ascii.eqb c "@"%char then true else contains_at rest
  end.

Definition sendWhatsAppMessage (client : Client) (recipient message : string)
  : (bool * string) * list SessionCall :=
  if negb (IsConnected client) then ((false, "Not connected to WhatsApp"), [])
  else
    let isJID := contains_at recipient in
    let parsed :=
      if isJID then ParseJID client recipient
      else Ok (JID.mk recipient "s.whatsapp.net") in
    match parsed with
    | Err e => ((false, "Error parsing JID: " +:+ e), [])
    | Ok recipientJID =>
        match SendMessage client recipientJID message with
        | Some e =>
            ((false, "Error sending message: " +:+ e),
             [CallSendMessage recipientJID message])
        | None =>
            ((true, "Message sent to " +:+ recipient),
             [CallSendMessage recipientJID message])
        end
    end.

(** An [*http.Request]: its method and what [json.Decode] makes of its body
    ([None] when decoding fails; a field the body lacks stays [""]). *)
Record Request := mkRequest {
  Method : string;
  Body : option SendMessageRequest.t
}.

Inductive ResponseBody :=
  | PlainText (text : string)
  | Json (r : SendMessageResponse.t).

Record Response := mkResponse {
  StatusCode : Z;
  Payload : ResponseBody
}.

Definition StatusOK : Z := 200.
Definition StatusBadRequest : Z := 400.
Definition StatusMethodNotAllowed : Z := 405.
Definition StatusInternalServerError : Z := 500.

Definition http_Error (text : string) (code : Z) : Response :=
  mkResponse code (PlainText text).

(** What a request makes the handler do besides answering. *)
Inductive Effect :=
  | Delegated (recipient message : string)   (* call of [sendWhatsAppMessage] *)
  | Session (c : SessionCall).

(** The handler registered for ["/api/send"] in [startRESTServer]. *)
Definition send_handler (client : Client) (r : Request) : Response * list Effect :=
  if decide (Method r ≠ "POST")
  then (http_Error "Method not allowed" StatusMethodNotAllowed, [])
  else
    match Body r with
    | None => (http_Error "Invalid request format" StatusBadRequest, [])
    | Some req =>
        if decide (SendMessageRequest.Recipient req = "")
        then (http_Error "Recipient is required" StatusBadRequest, [])
        else if decide (SendMessageRequest.Message req = "")
        then (http_Error "Message is required" StatusBadRequest, [])
        else
          let '((success, message), calls) :=
            sendWhatsAppMessage client (SendMessageRequest.Recipient req)
                                (SendMessageRequest.Message req) in
          (mkResponse (if success then StatusOK else StatusInternalServerError)
                      (Json (SendMessageResponse.mk success message)),
           Delegated (SendMessageRequest.Recipient req) (SendMessageRequest.Message req)
             :: (Session <$> calls))
    end.

Definition client_error (code : Z) : Prop := 400 ≤ code < 500.

(** * Definitions used by the statements *)

(** "First non-empty wins", the way the specification words the priority
    order; the candidates a lookup cannot supply are [""]. *)
Definition first_nonempty (candidates : list string) : string :=
  default "" (head (filter (λ s, s ≠ "") candidates)).

Definition sync_hints (conversation : option Conversation_) : list string :=
  match conversation with
  | Some conv => [default "" (DisplayName conv); default "" (Name conv)]
  | None => []
  end.

Definition group_info_name (client : Client) (jid : JID.t) : string :=
  match GetGroupInfo client jid with Some g => GroupName g | None => "" end.

Definition contact_full_name (client : Client) (jid : JID.t) : string :=
  match GetContact client jid with Some c => FullName c | None => "" end.

(** The first envelope of the conversation, the one [handleHistorySync]
    takes as the latest, carries no timestamp: it is nil, wraps nil, or its
    [MessageTimestamp] is unset or zero. *)
Definition latest_without_timestamp (conversation : Conversation_) : Prop :=
  match Messages conversation with
  | [] => False
  | latestMsg :: _ =>
      match latestMsg ≫= HistMessage with
      | Some latest => GetMessageTimestamp latest = 0
      | None => True
      end
  end.

#[global] Instance latest_without_timestamp_dec c : Decision (latest_without_timestamp c).
Proof.
  unfold latest_without_timestamp.
  destruct (Messages c) as [|latestMsg ?]; [apply _|].
  destruct (latestMsg ≫= HistMessage); apply _.
Defined.

(** The row the inner loop binds for an envelope; [None] when the envelope
    is skipped or the loop panics on it. *)
Definition history_row (client : Client) (jid : JID.t) (chatJID : string)
    (msg : option HistorySyncMsg) : option MessageRow.t :=
  m ← msg ≫= HistMessage;
  if decide (history_content m = "") then None
  else
    '(sender, isFromMe) ← history_sender client jid m;
    if decide (GetMessageTimestamp m = 0) then None
    else Some (message_row (history_msgID m) chatJID sender (history_content m)
                           (time_Unix (int64 (GetMessageTimestamp m))) isFromMe "text").

(** The envelope has no key, or a key without ID. *)
Definition id_less (m : WebMessageInfo) : Prop :=
  match Key m with
  | None => True
  | Some key => KeyID key = None
  end.

(** One successful [StoreMessage] of the inner loop. *)
Definition sync_row (st : SyncState) (r : MessageRow.t) : SyncState :=
  mkSync (mkStore (chats (sync_store st)) (replace_message r (messages (sync_store st))))
         (sync_writes st ++ [WriteMessage (MessageRow.id r) (MessageRow.chat_jid r)])
         (S (syncedCount st)).

(** Chats a log has upserted. *)
Definition upserted (log : list Write) : gset string :=
  list_to_set (omap (λ w, match w with WriteChat j => Some j | WriteMessage _ _ => None end) log).

(** Scans a log from its start: every message write finds its chat among
    [seen] or among the chat writes before it. *)
Fixpoint chat_upsert_first (seen : gset string) (log : list Write) : bool :=
  match log with
  | [] => true
  | WriteChat j :: rest => chat_upsert_first ({[j]} ∪ seen) rest
  | WriteMessage _ j :: rest => bool_decide (j ∈ seen) && chat_upsert_first seen rest
  end.

(** The same as a statement about positions in the log. *)
Definition chat_upserted_before_message (log : list Write) : Prop :=
  ∀ before id chatJID after,
    log = before ++ WriteMessage id chatJID :: after → WriteChat chatJID ∈ before.

(** Every row of the messages table carries the content kind ["text"]. *)
Definition all_text (store : MessageStore) : Prop :=
  Forall (λ r, MessageRow.media_type r = "text") (messages store).

(** Number of content fields a payload has set. *)
Definition content_variants (m : ProtoMessage) : nat :=
  ((if Conversation m is Some _ then 1 else 0)
   + (if ExtendedText m is Some _ then 1 else 0)
   + (if ImageMessage m then 1 else 0) + (if VideoMessage m then 1 else 0)
   + (if AudioMessage m then 1 else 0) + (if DocumentMessage m then 1 else 0))%nat.

(** The payload is one variant of a tagged union (or absent). *)
Definition single_variant (msg : option ProtoMessage) : Prop :=
  match msg with
  | Some m => (content_variants m ≤ 1)%nat
  | None => True
  end.

(** The handler calls of an execution that go through [handleEvent] with a
    message all carry a single-variant payload. *)
Definition single_variant_events (calls : list Call) : Prop :=
  ∀ v, CallHandleEvent (EvtMessage v) ∈ calls → single_variant (Message v).

(** The effect shared by the three handlers: message writes only for chats
    that are in the table or were upserted earlier in the same call, and
    chat rows only from logged upserts. *)
Definition handler_effect (store store' : MessageStore) (ws : list Write) : Prop :=
  (∀ seen, (∀ j, chat_exists j store → j ∈ seen) → chat_upsert_first seen ws = true) ∧
  (∀ j, chat_exists j store' → chat_exists j store ∨ j ∈ upserted ws).

(** Effect of the inner loop on the state it threads: message writes for
    the one chat, chats table untouched. *)
Definition messages_effect (chatJID : string) (st st' : SyncState) : Prop :=
  chats (sync_store st') = chats (sync_store st) ∧
  (∃ ws, sync_writes st' = sync_writes st ++ ws ∧
         Forall (λ w, ∃ id, w = WriteMessage id chatJID) ws) ∧
  (all_text (sync_store st) → all_text (sync_store st')).

(** Effect of the outer loop: writes that are ordered on their own. *)
Definition conversations_effect (st st' : SyncState) : Prop :=
  ∃ ws, sync_writes st' = sync_writes st ++ ws ∧
        (∀ seen, chat_upsert_first seen ws = true) ∧
        (∀ j, chat_exists j (sync_store st') →
              chat_exists j (sync_store st) ∨ j ∈ upserted ws) ∧
        (all_text (sync_store st) → all_text (sync_store st')).

(** What one result row adds to the Go map. *)
Definition chat_entry (parse : Time → option Time) (row : string * Time) : string * Time :=
  (row.1, default zero_time (parse row.2)).

Definition chat_columns (r : ChatRow.t) : string * Time :=
  (ChatRow.jid r, ChatRow.last_message_time r).

(** * The rest of the store and of the endpoints *)

(** ** [GetMessages] *)

(** [type Message struct] *)
Module Message.
Record t := mk {
  Time : Time;
  Sender : string;
  Content : string;
  IsFromMe : bool;
  MediaType : string
}.
End Message.

(** [ORDER BY timestamp DESC]: [a] comes no later than [b]. *)
Definition newer_first (a b : MessageRow.t) : Prop :=
  MessageRow.timestamp b ≤ MessageRow.timestamp a.

#[global] Instance newer_first_dec a b : Decision (newer_first a b).
Proof. unfold newer_first. apply _. Defined.

(** [LIMIT ?]: SQLite takes a negative bound as no bound. *)
Definition sql_limit {A : Type} (limit : Z) (rows : list A) : list A :=
  if decide (limit < 0) then rows else take (Z.to_nat limit) rows.

(** [SELECT sender, content, timestamp, is_from_me, media_type FROM messages
    WHERE chat_jid = ? ORDER BY timestamp DESC LIMIT ?] *)
Definition query_messages (chatJID : string) (limit : Z) (tbl : list MessageRow.t)
  : list MessageRow.t :=
  sql_limit limit
    (merge_sort newer_first (filter (λ r, MessageRow.chat_jid r = chatJID) tbl)).

(** One turn of the [rows.Next] loop; [parse] stands for [rows.Scan] into a
    string followed by [time.Parse], a failure giving [time.Time{}]. *)
Definition scan_message (parse : Time → option Time) (r : MessageRow.t) : Message.t :=
  Message.mk (default zero_time (parse (MessageRow.timestamp r)))
             (MessageRow.sender r) (MessageRow.content r)
             (MessageRow.is_from_me r) (MessageRow.media_type r).

Definition GetMessages (parse : Time → option Time) (store : MessageStore)
    (chatJID : string) (limit : Z) : list Message.t :=
  scan_message parse <$> query_messages chatJID limit (messages store).

(** ** [handleMCPCall] *)

(** The decoded body of a tool call: [Name], and what [json.Unmarshal] makes
    of [Args] ([None] when it fails). *)
Record MCPCall := mkMCPCall {
  ToolName : string;
  ToolArgs : option SendMessageRequest.t
}.

Record MCPRequest := mkMCPRequest {
  MCPMethod : string;
  MCPBody : option MCPCall
}.

(** The handler registered for ["/mcp/callTool"] in [main].  It has no
    session at hand; a response written without [WriteHeader] has status
    200. *)
Definition handleMCPCall (r : MCPRequest) : Response :=
  if decide (MCPMethod r ≠ "POST")
  then http_Error "Method not allowed" StatusMethodNotAllowed
  else
    match MCPBody r with
    | None => http_Error "Invalid request body" StatusBadRequest
    | Some request =>
        if decide (ToolName request = "send_message") then
          match ToolArgs request with
          | None => http_Error "Invalid arguments" StatusBadRequest
          | Some args =>
              mkResponse StatusOK (Json (SendMessageResponse.mk true "Message sent"))
          end
        else http_Error "Unknown API call" StatusBadRequest
    end.

(** ** Writes seen from outside the store *)

(** One call of [StoreChat] or [StoreMessage]. *)
Inductive store_op : MessageStore → MessageStore → Prop :=
  | op_StoreChat store jid name lastMessageTime :
      store_op store (StoreChat store jid name lastMessageTime).1
  | op_StoreMessage store id chatJID sender content timestamp isFromMe mediaType :
      store_op store
        (StoreMessage store id chatJID sender content timestamp isFromMe mediaType).1.

(** What the schema and [StoreMessage] promise about a database: unique
    keys in both tables, every message under an existing chat, no message
    without content or without sender. *)
Record store_ok (store : MessageStore) : Prop := mk_store_ok {
  chats_primary_key : NoDup (ChatRow.jid <$> chats store);
  messages_primary_key : NoDup (MessageRow.key <$> messages store);
  messages_foreign_key :
    ∀ r, r ∈ messages store → chat_exists (MessageRow.chat_jid r) store;
  messages_not_empty :
    ∀ r, r ∈ messages store → MessageRow.content r ≠ "" ∧ MessageRow.sender r ≠ ""
}.

(** The calls of an execution all go through [handleEvent]. *)
Definition only_handleEvent (calls : list Call) : Prop :=
  Forall (λ c, ∃ evt, c = CallHandleEvent evt) calls.

#[global] Instance newer_first_transitive : Transitive newer_first.
Proof. unfold newer_first. intros a b c. lia. Defined.

#[global] Instance newer_first_total : Total newer_first.
Proof. unfold newer_first. intros a b. lia. Defined.

(** Rows of one chat. *)
Definition chat_messages (chatJID : string) (tbl : list MessageRow.t)
  : list MessageRow.t :=
  filter (λ r, MessageRow.chat_jid r = chatJID) tbl.

(** Whether a log entry is the write of a message row. *)
Definition is_message_write (w : Write) : bool :=
  match w with WriteMessage _ _ => true | WriteChat _ => false end.

(** Number of message rows a log has written. *)
Definition message_writes (log : list Write) : nat :=
  length (filter (λ w, is_message_write w) log).

(** A conversation the outer loop passes over before it reads a message:
    no ID, an ID [ParseJID] rejects, or no messages. *)
Definition unusable_conversation (client : Client) (conversation : Conversation_) : Prop :=
  match ConvID conversation with
  | None => True
  | Some chatJID =>
      match ParseJID client chatJID with
      | Err _ => True
      | Ok _ => Messages conversation = []
      end
  end.

(** An envelope the inner loop passes over: nil, without text, or without
    timestamp (the timestamp is looked at after the sender is derived). *)
Definition skipped_envelope (client : Client) (jid : JID.t)
    (msg : option HistorySyncMsg) : Prop :=
  match msg ≫= HistMessage with
  | None => True
  | Some m =>
      history_content m = "" ∨
      (GetMessageTimestamp m = 0 ∧ is_Some (history_sender client jid m))
  end.

(** An envelope with text that is marked as sent by the account itself. *)
Definition own_text_envelope (msg : option HistorySyncMsg) : Prop :=
  ∃ m key, msg ≫= HistMessage = Some m ∧ history_content m ≠ "" ∧
           Key m = Some key ∧ FromMe key = Some true.

(** The conversation gets past the checks of the outer loop: its address
    parses and its first envelope carries a timestamp. *)
Definition processed_conversation (client : Client) (conversation : Conversation_) : Prop :=
  ∃ chatJID jid, ConvID conversation = Some chatJID ∧
                 ParseJID client chatJID = Ok jid ∧
                 Messages conversation ≠ [] ∧
                 ¬ latest_without_timestamp conversation.

(** ** A history batch as writes *)

(** What the outer loop of [handleHistorySync] takes from a conversation it
    does not pass over: the chat address as text and parsed, and the time
    of the first envelope. *)
Definition conversation_plan (client : Client) (conversation : Conversation_)
  : option (string * JID.t * Time) :=
  match ConvID conversation with
  | None => None
  | Some chatJID =>
      match ParseJID client chatJID with
      | Err _ => None
      | Ok jid =>
          match Messages conversation with
          | [] => None
          | latestMsg :: _ =>
              match latestMsg ≫= HistMessage with
              | None => None
              | Some latest =>
                  if decide (GetMessageTimestamp latest = 0) then None
                  else Some (chatJID, jid, time_Unix (int64 (GetMessageTimestamp latest)))
              end
          end
      end
  end.

(** The message rows a conversation contributes. *)
Definition conversation_rows (client : Client) (conversation : Conversation_)
  : list MessageRow.t :=
  match conversation_plan client conversation with
  | Some (chatJID, jid, _) => omap (history_row client jid chatJID) (Messages conversation)
  | None => []
  end.

(** The chats table after a conversation. *)
Definition conversation_chats (client : Client) (tbl : list ChatRow.t)
    (conversation : Conversation_) : list ChatRow.t :=
  match conversation_plan client conversation with
  | Some (chatJID, jid, ts) =>
      let name :=
        (GetChatName client (mkStore tbl []) jid chatJID (Some conversation) "").1 in
      replace_chat (ChatRow.mk chatJID name ts) tbl
  | None => tbl
  end.

(** The database after a conversation, for a session that is logged in. *)
Definition conversation_store (client : Client) (store : MessageStore)
    (conversation : Conversation_) : MessageStore :=
  mkStore (conversation_chats client (chats store) conversation)
          (foldl (λ tbl r, replace_message r tbl) (messages store)
                 (conversation_rows client conversation)).

(** The name a chats table holds for an address, [""] when it holds none. *)
Definition stored_name (tbl : list ChatRow.t) (chatJID : string) : string :=
  default "" (query_chat_name (mkStore tbl []) chatJID).

(** The chat row of a conversation, under the name the table [tbl] holds. *)
Definition planned_chat_row (client : Client) (tbl : list ChatRow.t)
    (conversation : Conversation_) : option ChatRow.t :=
  (λ p, ChatRow.mk p.1.1 (stored_name tbl p.1.1) p.2)
    <$> conversation_plan client conversation.

(** The chats table holds, for every conversation of the batch that is
    processed, the name that conversation resolves to. *)
Definition settled_names (client : Client) (tbl : list ChatRow.t)
    (conversations : list Conversation_) : Prop :=
  ∀ conversation chatJID jid ts,
    conversation ∈ conversations →
    conversation_plan client conversation = Some (chatJID, jid, ts) →
    query_chat_name (mkStore tbl []) chatJID
    = Some (GetChatName client (mkStore tbl []) jid chatJID (Some conversation) "").1.

(** * Sample data *)

(** A session that knows no group and no contact and is not logged in. *)
Definition silent_client : Client :=
  mkClient true (λ _, Err "invalid JID") (λ _, None) (λ _, None) None (λ _ _, None).

(** ["user@server"] split at the first ['@'], as [types.ParseJID] does for
    plain addresses. *)
Fixpoint split_at (s : string) : option (string * string) :=
  match s with
  | EmptyString => None
  | String c rest =>
      if Ascii.eqb c "@"%char then Some (EmptyString, rest)
      else match split_at rest with
           | Some (user, server) => Some (String c user, server)
           | None => None
           end
  end.

Definition plain_ParseJID (s : string) : result JID.t :=
  match split_at s with
  | Some (user, server) => Ok (JID.mk user server)
  | None => Ok (JID.mk "" s)
  end.

(** A logged-in session without group or contact entries. *)
Definition sample_client : Client :=
  mkClient true plain_ParseJID (λ _, None) (λ _, None)
           (Some (JID.mk "999" "s.whatsapp.net")) (λ _ _, None).

Definition text_message (text : string) : ProtoMessage :=
  mkProto (Some text) None false false false false.

Definition envelope (key : option MessageKey) (text : string) (ts : option Z)
  : option HistorySyncMsg :=
  Some (mkHistoryMsg (Some (mkWeb key (Some (text_message text)) ts))).

Definition untimed_conversation : Conversation_ :=
  mkConversation (Some "123@g.us") (Some "Desk") None
                 [envelope None "buy 10" None; envelope None "sell 5" (Some 1700000000)].

Definition timed_conversation : Conversation_ :=
  mkConversation (Some "456@s.whatsapp.net") None None
                 [envelope (Some (mkKey None None (Some "m7"))) "hold" (Some 1700000100)].

(** Two envelopes without ID in one chat, the second one sent by the
    account itself. *)
Definition id_less_conversation : Conversation_ :=
  mkConversation (Some "123@g.us") (Some "Desk") None
    [envelope None "sell 5" (Some 1700000200);
     envelope (Some (mkKey (Some true) None None)) "buy 10" (Some 1700000100)].

Definition desk : JID.t := JID.mk "123" "g.us".
Definition trader : JID.t := JID.mk "555" "s.whatsapp.net".

Definition text_event (id text : string) (ts : Time) : EventsMessage :=
  mkEventsMessage (mkInfo desk trader false id ts) (Some (text_message text)).

(** An image without any text. *)
Definition image_event (id : string) (ts : Time) : EventsMessage :=
  mkEventsMessage (mkInfo desk trader false id ts)
                  (Some (mkProto None None true false false false)).

(** A payload with the [Conversation] field and the [ImageMessage] field
    both set. *)
Definition text_and_image_event (id text : string) (ts : Time) : EventsMessage :=
  mkEventsMessage (mkInfo desk trader false id ts)
                  (Some (mkProto (Some text) None true false false false)).

(** The chat ["123@g.us"] with one message. *)
Definition sample_store : MessageStore :=
  mkStore [ChatRow.mk "123@g.us" "Desk" 5]
          [MessageRow.mk "m0" "123@g.us" "555" "hold" 4 false "text"].

(** Sessions that are connected but not logged in, and not connected. *)
Definition logged_out_client : Client :=
  mkClient true plain_ParseJID (λ _, None) (λ _, None) None (λ _ _, None).

Definition offline_client : Client :=
  mkClient false plain_ParseJID (λ _, None) (λ _, None)
           (Some (JID.mk "999" "s.whatsapp.net")) (λ _ _, None).

(** A conversation without address, and an envelope without text. *)
Definition anonymous_conversation : Conversation_ :=
  mkConversation None (Some "Desk") None [envelope None "buy 10" (Some 1700000000)].

Definition empty_envelope : option HistorySyncMsg :=
  Some (mkHistoryMsg (Some (mkWeb None (Some (mkProto None None true false false false))
                                  (Some 1700000000)))).

(** * Proofs *)

(** * Properties of the store *)

Section store_facts.
Implicit Types (store : MessageStore) (r : MessageRow.t) (c : ChatRow.t).

Lemma filter_key_twice (k : string * string) (tbl : list MessageRow.t) :
  filter (λ x, MessageRow.key x ≠ k) (filter (λ x, MessageRow.key x ≠ k) tbl)
  = filter (λ x, MessageRow.key x ≠ k) tbl.
Proof.
  induction tbl as [|x tbl IH]; [done|].
  rewrite (filter_cons _ x tbl). case_decide as Hx.
  - rewrite filter_cons_True by done. by rewrite IH.
  - done.
Qed.

(** Replacing twice with the same row is replacing once. *)
Lemma replace_message_idem r tbl :
  replace_message r (replace_message r tbl) = replace_message r tbl.
Proof.
  unfold replace_message. rewrite filter_app, filter_key_twice.
  rewrite filter_cons_False by (intros H; by apply H).
  by rewrite filter_nil, app_nil_r.
Qed.

(** After a replace the key selects the new row and nothing else. *)
Lemma select_replace_message r tbl :
  select_message (MessageRow.key r) (replace_message r tbl) = [r].
Proof.
  unfold select_message, replace_message. rewrite filter_app.
  rewrite filter_cons_True by done. rewrite filter_nil.
  replace (filter (λ x, MessageRow.key x = MessageRow.key r)
             (filter (λ x, MessageRow.key x ≠ MessageRow.key r) tbl))
    with (@nil MessageRow.t); [done|].
  symmetry. induction tbl as [|x tbl IH]; [done|].
  rewrite (filter_cons _ x tbl). case_decide as Hx; [|done].
  by rewrite filter_cons_False.
Qed.

(** Rows under other keys are not touched by a replace. *)
Lemma select_replace_message_ne r k tbl :
  MessageRow.key r ≠ k →
  select_message k (replace_message r tbl) = select_message k tbl.
Proof.
  intros Hk. unfold select_message, replace_message. rewrite filter_app.
  rewrite filter_cons_False by done. rewrite filter_nil, app_nil_r.
  induction tbl as [|x tbl IH]; [done|].
  rewrite (filter_cons (λ x, MessageRow.key x ≠ _) x tbl).
  rewrite (filter_cons (λ x, MessageRow.key x = k) x tbl).
  case_decide as Hx; case_decide as Hy.
  - rewrite filter_cons_True by done. by rewrite IH.
  - by rewrite filter_cons_False.
  - congruence.
  - done.
Qed.

Lemma chat_exists_replace_chat c store :
  let store' := mkStore (replace_chat c (chats store)) (messages store) in
  ∀ j, chat_exists j store' ↔ j = ChatRow.jid c ∨ chat_exists j store.
Proof.
  intros store' j. unfold chat_exists, store', replace_chat. simpl.
  rewrite fmap_app, elem_of_app. simpl. rewrite list_elem_of_singleton.
  rewrite !list_elem_of_fmap. split.
  - intros [(y & -> & Hy) | ->]; [|by left].
    apply list_elem_of_filter in Hy as [_ Hy]. right. eauto.
  - intros [-> | (y & -> & Hy)]; [by right|].
    destruct (decide (ChatRow.jid y = ChatRow.jid c)) as [Heq | Hne]; [by right|].
    left. exists y. split; [done|]. by apply list_elem_of_filter.
Qed.

Lemma StoreMessage_chats store id chatJID sender content ts isFromMe mediaType :
  chats (StoreMessage store id chatJID sender content ts isFromMe mediaType).1
  = chats store.
Proof.
  unfold StoreMessage, exec_insert_message.
  repeat case_decide; done.
Qed.

(** What [StoreMessage] does when it reaches the statement and the parent
    row is there. *)
Lemma StoreMessage_written store id chatJID sender content ts isFromMe mediaType :
  content ≠ "" → chat_exists chatJID store →
  StoreMessage store id chatJID sender content ts isFromMe mediaType
  = (mkStore (chats store)
       (replace_message
          (message_row id chatJID sender content ts isFromMe mediaType)
          (messages store)),
     None).
Proof.
  intros Hc Hj. unfold StoreMessage, exec_insert_message.
  rewrite decide_False by done. by rewrite decide_True.
Qed.

Lemma StoreMessage_rejected store id chatJID sender content ts isFromMe mediaType :
  content ≠ "" → ¬ chat_exists chatJID store →
  StoreMessage store id chatJID sender content ts isFromMe mediaType
  = (store, Some ForeignKeyConstraintFailed).
Proof.
  intros Hc Hj. unfold StoreMessage, exec_insert_message.
  rewrite decide_False by done. by rewrite decide_False.
Qed.
End store_facts.

(** C4. [StoreMessage] with empty content returns [nil] and writes nothing,
    whatever the other arguments are: the store that comes back is the store
    that went in. *)
Theorem StoreMessage_empty_content_noop
    (store : MessageStore) (id chatJID sender : string) (timestamp : Time)
    (isFromMe : bool) (mediaType : string) :
  StoreMessage store id chatJID sender "" timestamp isFromMe mediaType = (store, None).
Proof. reflexivity. Qed.

(** C1. Applying [StoreMessage] a second time with the same
    arguments returns the same result and leaves the same store as applying
    it once.  When the content is non-empty and the chat row exists, both
    calls succeed, the key [(id, chatJID)] selects exactly one row, the one
    delivered (an empty sender stored as ["unknown"]), and the chats table is
    as before. *)
Theorem StoreMessage_idempotent
    (store : MessageStore) (id chatJID sender content : string) (timestamp : Time)
    (isFromMe : bool) (mediaType : string) :
  let once := StoreMessage store id chatJID sender content timestamp isFromMe mediaType in
  let twice := StoreMessage once.1 id chatJID sender content timestamp isFromMe mediaType in
  twice = once ∧
  (content ≠ "" → chat_exists chatJID store →
   once.2 = None ∧ twice.2 = None ∧
   select_message (id, chatJID) (messages twice.1)
   = [message_row id chatJID sender content timestamp isFromMe mediaType] ∧
   chats twice.1 = chats store).
Proof.
  intros once twice. subst once twice.
  destruct (decide (content = "")) as [->|Hc].
  { split; [done|]. intros []; done. }
  destruct (decide (chat_exists chatJID store)) as [Hj|Hj].
  - rewrite (StoreMessage_written store) by done. simpl.
    rewrite StoreMessage_written by done. simpl.
    rewrite replace_message_idem. split; [done|]. intros _ _.
    repeat split.
    apply (select_replace_message
             (message_row id chatJID sender content timestamp isFromMe mediaType)).
  - rewrite (StoreMessage_rejected store) by done. simpl.
    rewrite StoreMessage_rejected by done. split; [done|]. intros _ ?. done.
Qed.

(** The redelivery scenario of the specification: the chat ["123@g.us"] is
    known and message ["m1"] with text ["buy 10"] arrives twice. *)
Lemma StoreMessage_idempotent_witness :
  let store := mkStore [ChatRow.mk "123@g.us" "Desk" 5] [] in
  let once := StoreMessage store "m1" "123@g.us" "555" "buy 10" 7 false "text" in
  let twice := StoreMessage once.1 "m1" "123@g.us" "555" "buy 10" 7 false "text" in
  twice = once ∧
  select_message ("m1", "123@g.us") (messages twice.1)
  = [MessageRow.mk "m1" "123@g.us" "555" "buy 10" 7 false "text"].
Proof.
  intros store once twice.
  destruct (StoreMessage_idempotent store "m1" "123@g.us" "555" "buy 10" 7 false "text")
    as [Hsame Hrow].
  split; [exact Hsame|].
  destruct Hrow as (_ & _ & Hsel & _).
  - discriminate.
  - vm_compute. apply list_elem_of_here.
  - exact Hsel.
Defined.

(** C1 does not extend to an envelope without text: after two deliveries
    the key selects no row at all, although the chat row is there. *)
Lemma StoreMessage_empty_text_twice_no_row :
  let store := mkStore [ChatRow.mk "123@g.us" "Desk" 5] [] in
  let once := StoreMessage store "m1" "123@g.us" "555" "" 7 false "text" in
  let twice := StoreMessage once.1 "m1" "123@g.us" "555" "" 7 false "text" in
  length (select_message ("m1", "123@g.us") (messages twice.1)) ≠ 1%nat.
Proof. vm_compute. discriminate. Qed.

(** * Chat names *)

Section chat_names.
Context (client : Client) (store : MessageStore).

Lemma select_chat_replace_chat (r : ChatRow.t) (tbl : list ChatRow.t) :
  select_chat (ChatRow.jid r) (replace_chat r tbl) = [r].
Proof.
  unfold select_chat, replace_chat. rewrite filter_app.
  rewrite filter_cons_True by done. rewrite filter_nil.
  replace (filter (λ x, ChatRow.jid x = ChatRow.jid r)
             (filter (λ x, ChatRow.jid x ≠ ChatRow.jid r) tbl))
    with (@nil ChatRow.t); [done|].
  symmetry. induction tbl as [|x tbl IH]; [done|].
  rewrite (filter_cons _ x tbl). case_decide as Hx; [|done].
  by rewrite filter_cons_False.
Qed.

(** A name written by [StoreChat] is the name the next query reads. *)
Lemma query_chat_name_StoreChat (jid name : string) (t : Time) :
  query_chat_name (StoreChat store jid name t).1 jid = Some name.
Proof.
  unfold query_chat_name, StoreChat. simpl.
  by rewrite (select_chat_replace_chat (ChatRow.mk jid name t)).
Qed.

Lemma conversation_name_hints (conversation : option Conversation_) :
  conversation_name conversation = first_nonempty (sync_hints conversation).
Proof.
  unfold conversation_name, first_nonempty, sync_hints.
  destruct conversation as [[cid [dn|] [n|] msgs]|]; simpl;
    repeat (rewrite filter_cons; simpl; case_decide; simpl); try done.
Qed.

Lemma determine_chat_name_group (jid : JID.t)
    (conversation : option Conversation_) (sender : string) :
  JID.Server jid = "g.us" →
  (determine_chat_name client jid conversation sender).1
  = first_nonempty (sync_hints conversation ++
                    [group_info_name client jid; "Group " +:+ JID.User jid]).
Proof.
  intros Hg. unfold determine_chat_name. rewrite decide_True by done.
  rewrite conversation_name_hints. unfold first_nonempty.
  rewrite filter_app.
  destruct (filter (λ s, s ≠ "") (sync_hints conversation)) as [|h hs] eqn:Hh; simpl.
  - unfold group_info_name.
    destruct (GetGroupInfo client jid) as [g|]; simpl.
    + rewrite filter_cons. by case_decide.
    + done.
  - assert (h ≠ "") as Hne.
    { assert (h ∈ filter (λ s, s ≠ "") (sync_hints conversation)) as Hin
        by (rewrite Hh; apply list_elem_of_here).
      by apply list_elem_of_filter in Hin as [? _]. }
    by rewrite decide_False.
Qed.

Lemma determine_chat_name_contact (jid : JID.t)
    (conversation : option Conversation_) (sender : string) :
  JID.Server jid ≠ "g.us" →
  (determine_chat_name client jid conversation sender).1
  = first_nonempty [contact_full_name client jid; sender; JID.User jid].
Proof.
  intros Hg. unfold determine_chat_name. rewrite decide_False by done.
  unfold first_nonempty, contact_full_name.
  destruct (GetContact client jid) as [c|]; simpl;
    repeat (rewrite filter_cons; simpl; case_decide; simpl); try done;
    repeat (rewrite ?filter_cons, ?filter_nil; simpl; repeat case_decide; simpl; try done).
Qed.

Lemma first_nonempty_nonempty (candidates : list string) :
  (∃ s, s ∈ candidates ∧ s ≠ "") → first_nonempty candidates ≠ "".
Proof.
  intros (s & Hs & Hne). unfold first_nonempty.
  destruct (filter (λ s, s ≠ "") candidates) as [|h hs] eqn:Hf; simpl.
  - exfalso. eapply filter_nil_not_elem_of; [exact Hf| |exact Hs]. done.
  - assert (h ∈ filter (λ s, s ≠ "") candidates) as Hin
      by (rewrite Hf; apply list_elem_of_here).
    by apply list_elem_of_filter in Hin as [? _].
Qed.
End chat_names.

(** C5. A non-empty stored name is returned as it is and no
    lookup is made in the session, whatever the hint, the session and the
    sender are; this holds in particular right after [StoreChat] wrote the
    name.  Without a stored name the result is the first non-empty
    candidate of the chain (group: display name and name of the sync
    conversation, group info, ["Group " + User]; contact: full name, sender,
    [User]); it is non-empty for every group address and for every address
    whose local part is non-empty. *)
Theorem GetChatName_priority
    (client : Client) (store : MessageStore) (jid : JID.t) (chatJID : string)
    (conversation : option Conversation_) (sender : string) :
  (∀ existing, query_chat_name store chatJID = Some existing → existing ≠ "" →
     GetChatName client store jid chatJID conversation sender = (existing, [])) ∧
  (∀ name t, name ≠ "" →
     GetChatName client (StoreChat store chatJID name t).1 jid chatJID
                 conversation sender = (name, [])) ∧
  ((∀ existing, query_chat_name store chatJID = Some existing → existing = "") →
     let name := (GetChatName client store jid chatJID conversation sender).1 in
     (JID.Server jid = "g.us" →
        name = first_nonempty (sync_hints conversation ++
                               [group_info_name client jid; "Group " +:+ JID.User jid])) ∧
     (JID.Server jid ≠ "g.us" →
        name = first_nonempty [contact_full_name client jid; sender; JID.User jid]) ∧
     (JID.Server jid = "g.us" ∨ JID.User jid ≠ "" → name ≠ "")).
Proof.
  assert (∀ st existing, query_chat_name st chatJID = Some existing → existing ≠ "" →
            GetChatName client st jid chatJID conversation sender = (existing, []))
    as Hstored.
  { intros st existing Hq Hne. unfold GetChatName. rewrite Hq.
    by rewrite decide_True. }
  split; [apply Hstored|]. split.
  { intros name t Hne. apply Hstored; [|done]. apply query_chat_name_StoreChat. }
  intros Hnone name.
  assert (name = (determine_chat_name client jid conversation sender).1) as ->.
  { subst name. unfold GetChatName.
    destruct (query_chat_name store chatJID) as [existing|] eqn:Hq; [|done].
    rewrite decide_False; [done|]. intros Hne. apply Hne. by apply Hnone. }
  split; [apply determine_chat_name_group|].
  split; [apply determine_chat_name_contact|].
  intros Hjid. destruct (decide (JID.Server jid = "g.us")) as [Hg|Hg].
  - rewrite determine_chat_name_group by done.
    apply first_nonempty_nonempty. exists ("Group " +:+ JID.User jid).
    split; [|done]. rewrite elem_of_app. right. apply list_elem_of_further, list_elem_of_here.
  - destruct Hjid as [?|Hu]; [done|].
    rewrite determine_chat_name_contact by done.
    apply first_nonempty_nonempty. exists (JID.User jid).
    split; [|done]. do 2 apply list_elem_of_further. apply list_elem_of_here.
Qed.

(** The stored name ["Desk"] wins over every lookup; on an empty store the
    group ["123@g.us"] still gets a name. *)
Lemma GetChatName_priority_witness :
  let store := mkStore [ChatRow.mk "123@g.us" "Desk" 5] [] in
  let jid := JID.mk "123" "g.us" in
  GetChatName silent_client store jid "123@g.us" None "555" = ("Desk", []) ∧
  (GetChatName silent_client empty_store jid "123@g.us" None "555").1 ≠ "".
Proof.
  intros store jid. split.
  - destruct (GetChatName_priority silent_client store jid "123@g.us" None "555")
      as (Hstored & _ & _).
    apply Hstored; [reflexivity | discriminate].
  - destruct (GetChatName_priority silent_client empty_store jid "123@g.us" None "555")
      as (_ & _ & Hchain).
    apply Hchain.
    + intros existing Hq. vm_compute in Hq. discriminate.
    + left. reflexivity.
Defined.

(** C5 stops short at the end of the contact chain: for an address
    without a local part (a bare server address), no contact entry and no
    sender, the last fallback [jid.User] is the empty string. *)
Lemma GetChatName_bare_server_empty :
  (GetChatName silent_client empty_store (JID.mk "" "s.whatsapp.net")
               "s.whatsapp.net" None "").1 = "".
Proof. reflexivity. Qed.

(** * History sync *)

Section history_sync.
Context (client : Client).

Lemma sync_conversation_skips (st : SyncState) (conversation : Conversation_) :
  latest_without_timestamp conversation →
  sync_conversation client st conversation = (st, Continue).
Proof.
  unfold latest_without_timestamp, sync_conversation. intros Hts.
  destruct (ConvID conversation) as [chatJID|]; [|done].
  destruct (ParseJID client chatJID) as [jid|]; [|done].
  destruct (Messages conversation) as [|latestMsg rest]; [done|].
  destruct (latestMsg ≫= HistMessage) as [latest|]; [|done].
  by rewrite decide_True.
Qed.

Lemma sync_conversations_app (before after : list Conversation_) (st : SyncState) :
  sync_conversations client (before ++ after) st
  = match sync_conversations client before st with
    | (st', Continue) => sync_conversations client after st'
    | (st', Panic) => (st', Panic)
    end.
Proof.
  revert st. induction before as [|c before IH]; intros st; simpl; [done|].
  destruct (sync_conversation client st c) as [st' []]; [apply IH|done].
Qed.
End history_sync.

(** C6. A conversation whose latest message has no timestamp leaves the
    store, the write log and the counter as they are (no chat row created
    or updated, no message stored), and the batch goes on: the result of the
    whole batch is that of the batch without this conversation. *)
Theorem handleHistorySync_skips_untimed_conversation
    (client : Client) (store : MessageStore) (st : SyncState)
    (before after : list Conversation_) (conversation : Conversation_) :
  latest_without_timestamp conversation →
  sync_conversation client st conversation = (st, Continue) ∧
  handleHistorySync client store (mkHistorySync (before ++ conversation :: after))
  = handleHistorySync client store (mkHistorySync (before ++ after)).
Proof.
  intros Hts. split; [by apply sync_conversation_skips|].
  unfold handleHistorySync. simpl. rewrite !sync_conversations_app.
  destruct (sync_conversations client before _) as [st' []]; [|done].
  simpl. by rewrite sync_conversation_skips.
Qed.

(** The untimed conversation between two others: nothing of it reaches the
    store, the other two are processed. *)
Lemma handleHistorySync_skips_untimed_conversation_witness :
  latest_without_timestamp untimed_conversation ∧
  sync_conversation sample_client (mkSync empty_store [] 0) untimed_conversation
  = (mkSync empty_store [] 0, Continue) ∧
  handleHistorySync sample_client empty_store
    (mkHistorySync ([timed_conversation] ++ untimed_conversation :: [timed_conversation]))
  = handleHistorySync sample_client empty_store
      (mkHistorySync ([timed_conversation] ++ [timed_conversation])).
Proof.
  assert (latest_without_timestamp untimed_conversation) as Hts by reflexivity.
  split; [exact Hts|].
  exact (handleHistorySync_skips_untimed_conversation sample_client empty_store
           (mkSync empty_store [] 0) [timed_conversation] [timed_conversation]
           untimed_conversation Hts).
Defined.

(** ** Rows of a history batch *)

Section history_rows.
Context (client : Client) (me jid : JID.t) (chatJID : string).
Hypothesis logged_in : StoreID client = Some me.

Lemma history_row_key (msg : option HistorySyncMsg) (r : MessageRow.t) :
  history_row client jid chatJID msg = Some r →
  MessageRow.chat_jid r = chatJID ∧ MessageRow.content r ≠ "" ∧
  MessageRow.media_type r = "text" ∧
  ∃ m, msg ≫= HistMessage = Some m ∧ MessageRow.id r = history_msgID m.
Proof.
  unfold history_row. destruct (msg ≫= HistMessage) as [m|]; simpl; [|done].
  case_decide as Hc; [done|].
  destruct (history_sender client jid m) as [[sender isFromMe]|]; simpl; [|done].
  case_decide; [done|]. intros [= <-]. simpl. repeat split; eauto.
Qed.

Lemma history_sender_logged_in (m : WebMessageInfo) :
  is_Some (history_sender client jid m).
Proof.
  unfold history_sender. rewrite logged_in.
  destruct (Key m) as [key|]; [|by eexists]. simpl.
  repeat case_match; by eexists.
Qed.

Lemma store_history_message_row (st : SyncState) (msg : option HistorySyncMsg) :
  chat_exists chatJID (sync_store st) →
  store_history_message client jid chatJID st msg
  = (from_option (sync_row st) st (history_row client jid chatJID msg), Continue).
Proof.
  intros Hj. unfold store_history_message, history_row.
  destruct (msg ≫= HistMessage) as [m|]; simpl; [|done].
  case_decide as Hc; [done|].
  destruct (history_sender_logged_in m) as [[sender isFromMe] Hs]. rewrite Hs. simpl.
  case_decide as Hts; [done|].
  rewrite StoreMessage_written by done. simpl.
  unfold message_write. by rewrite decide_False.
Qed.

Lemma store_history_messages_rows (msgs : list (option HistorySyncMsg)) (st : SyncState) :
  chat_exists chatJID (sync_store st) →
  store_history_messages client jid chatJID msgs st
  = (foldl sync_row st (omap (history_row client jid chatJID) msgs), Continue).
Proof.
  revert st. induction msgs as [|msg msgs IH]; intros st Hj; simpl; [done|].
  rewrite store_history_message_row by done.
  destruct (history_row client jid chatJID msg) as [r|]; simpl; [|by apply IH].
  apply IH. done.
Qed.
End history_rows.

(** Last write wins: after a run of replaces, a key selects the last row
    written under it, or what it selected before when none was. *)
Lemma select_message_foldl_sync_row (k : string * string) (rows : list MessageRow.t)
    (st : SyncState) :
  select_message k (messages (sync_store (foldl sync_row st rows)))
  = match last (filter (λ r, MessageRow.key r = k) rows) with
    | Some r => [r]
    | None => select_message k (messages (sync_store st))
    end.
Proof.
  revert st. induction rows as [|r rows IH]; intros st; [done|].
  simpl. rewrite IH. rewrite filter_cons. case_decide as Hk.
  - destruct (filter (λ r, MessageRow.key r = k) rows) as [|r' rs] eqn:Hf; simpl.
    + subst k. apply select_replace_message.
    + destruct (proj2 (last_is_Some (r' :: rs))) as [y Hy]; [done|]. by rewrite Hy.
  - destruct (last _); [done|]. simpl. by apply select_replace_message_ne.
Qed.

Lemma history_msgID_id_less (m : WebMessageInfo) :
  id_less m → history_msgID m = "".
Proof.
  unfold id_less, history_msgID. destruct (Key m) as [key|]; [|done].
  by intros ->.
Qed.

(** C10. An envelope without key or key ID that is stored at all is stored
    under the key [("", chatJID)].  After the conversation is processed
    that key selects a single row, the one of the last envelope stored
    under it: every later one has replaced the earlier ones.  (When no
    envelope was stored under it, it selects what it did before.) *)
Theorem history_id_less_messages_share_key
    (client : Client) (me jid : JID.t) (chatJID : string)
    (conversation : Conversation_) (st : SyncState) :
  StoreID client = Some me →
  ConvID conversation = Some chatJID →
  ParseJID client chatJID = Ok jid →
  ¬ latest_without_timestamp conversation →
  let rows := omap (history_row client jid chatJID) (Messages conversation) in
  let st' := (sync_conversation client st conversation).1 in
  (∀ msg m r, msg ≫= HistMessage = Some m → id_less m →
     history_row client jid chatJID msg = Some r →
     MessageRow.key r = ("", chatJID)) ∧
  select_message ("", chatJID) (messages (sync_store st'))
  = match last (filter (λ r, MessageRow.key r = ("", chatJID)) rows) with
    | Some r => [r]
    | None => select_message ("", chatJID) (messages (sync_store st))
    end.
Proof.
  intros Hme Hid Hjid Hts rows st'. split.
  - intros msg m r Hm Hless Hr.
    apply history_row_key in Hr as (Hchat & _ & _ & m' & Hm' & Hrid).
    rewrite Hm in Hm'. injection Hm' as <-.
    unfold MessageRow.key. by rewrite Hrid, Hchat, history_msgID_id_less.
  - subst st' rows. unfold sync_conversation. rewrite Hid, Hjid.
    unfold latest_without_timestamp in Hts.
    destruct (Messages conversation) as [|latestMsg rest] eqn:Hmsgs; [done|].
    destruct (latestMsg ≫= HistMessage) as [latest|] eqn:Hlatest; [|done].
    rewrite decide_False by done.
    set (name := (GetChatName _ _ _ _ _ _).1).
    set (ts := time_Unix _).
    destruct (StoreChat (sync_store st) chatJID name ts) as [store1 err1] eqn:HS.
    assert (store1 = mkStore (replace_chat (ChatRow.mk chatJID name ts)
                                           (chats (sync_store st)))
                             (messages (sync_store st))) as ->
      by (unfold StoreChat in HS; by injection HS as <- _).
    rewrite (store_history_messages_rows client me) by
      (try done; simpl; apply chat_exists_replace_chat; by left).
    simpl fst. by rewrite select_message_foldl_sync_row.
Qed.

(** Of the two, only ["buy 10"], processed last, is left under
    [("", "123@g.us")]. *)
Lemma history_id_less_messages_share_key_witness :
  let st' := (sync_conversation sample_client (mkSync empty_store [] 0)
                                id_less_conversation).1 in
  select_message ("", "123@g.us") (messages (sync_store st'))
  = [MessageRow.mk "" "123@g.us" "999" "buy 10" 1700000100 true "text"] ∧
  syncedCount st' = 2%nat.
Proof.
  intros st'. split; [|reflexivity].
  destruct (history_id_less_messages_share_key sample_client
              (JID.mk "999" "s.whatsapp.net") (JID.mk "123" "g.us") "123@g.us"
              id_less_conversation (mkSync empty_store [] 0))
    as [_ Hsel].
  - reflexivity.
  - reflexivity.
  - reflexivity.
  - vm_compute. discriminate.
  - exact Hsel.
Defined.

(** * Write order and content kind along executions *)

Section write_order.
Implicit Types (seen : gset string) (log ws : list Write).

Lemma upserted_app log ws : upserted (log ++ ws) = upserted log ∪ upserted ws.
Proof. unfold upserted. by rewrite omap_app, list_to_set_app_L. Qed.

Lemma elem_of_upserted j log : j ∈ upserted log ↔ WriteChat j ∈ log.
Proof.
  unfold upserted. rewrite elem_of_list_to_set, list_elem_of_omap. split.
  - intros ([j'|id j'] & Hin & Heq); [|done]. by injection Heq as ->.
  - intros Hin. by exists (WriteChat j).
Qed.

Lemma chat_upsert_first_app seen log ws :
  chat_upsert_first seen (log ++ ws)
  = chat_upsert_first seen log && chat_upsert_first (upserted log ∪ seen) ws.
Proof.
  revert seen. induction log as [|[j|id j] log IH]; intros seen; simpl.
  - by replace (upserted [] ∪ seen) with seen by set_solver.
  - rewrite IH. do 2 f_equal. unfold upserted. simpl. set_solver.
  - rewrite IH. by rewrite andb_assoc.
Qed.

Lemma chat_upsert_first_mono seen seen' ws :
  seen ⊆ seen' → chat_upsert_first seen ws = true → chat_upsert_first seen' ws = true.
Proof.
  revert seen seen'. induction ws as [|[j|id j] ws IH]; intros seen seen' Hsub; simpl.
  - done.
  - apply IH. set_solver.
  - rewrite !andb_true_iff, !bool_decide_eq_true. intros [Hj Hws].
    split; [set_solver|]. by eapply IH.
Qed.

(** Message writes for a chat that is already there keep a log ordered. *)
Lemma chat_upsert_first_messages seen chatJID ws :
  chatJID ∈ seen →
  Forall (λ w, ∃ id, w = WriteMessage id chatJID) ws →
  chat_upsert_first seen ws = true.
Proof.
  intros Hin. induction 1 as [|w ws [id ->] _ IH]; simpl; [done|].
  by rewrite bool_decide_true.
Qed.

(** The scan decides the statement about positions. *)
Lemma chat_upsert_first_sound log :
  chat_upsert_first ∅ log = true → chat_upserted_before_message log.
Proof.
  intros Hlog before id chatJID after ->.
  rewrite chat_upsert_first_app in Hlog. simpl in Hlog.
  rewrite !andb_true_iff, bool_decide_eq_true in Hlog.
  destruct Hlog as (_ & Hin & _). apply elem_of_upserted. set_solver.
Qed.
End write_order.

(** ** What one handler call does to the tables and the log *)

Section handler_effects.
Implicit Types (store : MessageStore) (seen : gset string) (ws : list Write).

Lemma replace_message_all_text (r : MessageRow.t) store :
  all_text store → MessageRow.media_type r = "text" →
  all_text (mkStore (chats store) (replace_message r (messages store))).
Proof.
  unfold all_text, replace_message. simpl. intros Hall Hr.
  apply Forall_app. split; [|by apply Forall_singleton].
  apply Forall_forall. intros x [_ Hx]%list_elem_of_filter.
  by eapply Forall_forall in Hall.
Qed.

Lemma StoreMessage_effect store id chatJID sender content ts isFromMe mediaType
    store' err :
  StoreMessage store id chatJID sender content ts isFromMe mediaType = (store', err) →
  chats store' = chats store ∧
  (content ≠ "" → err = None → chat_exists chatJID store) ∧
  (all_text store → content = "" ∨ mediaType = "text" → all_text store').
Proof.
  unfold StoreMessage, exec_insert_message. intros HS.
  destruct (decide (content = "")) as [Hc|Hc].
  { injection HS as <- <-. done. }
  destruct (decide (chat_exists _ store)) as [Hj|Hj]; injection HS as <- <-.
  - split; [done|]. split; [done|]. intros Hall [?|Hm]; [done|].
    by apply replace_message_all_text.
  - split; [done|]. split; [done|]. done.
Qed.

Lemma handleMessage_writes (client : Client) store (msg : EventsMessage) :
  let chatJID := JID.String (Chat (Info msg)) in
  (handleMessage client store msg).2 = [WriteChat chatJID] ∨
  (handleMessage client store msg).2
  = [WriteChat chatJID; WriteMessage (ID (Info msg)) chatJID].
Proof.
  intros chatJID. unfold handleMessage. fold chatJID. simpl.
  case_decide as Hc; [by left|].
  destruct (StoreMessage _ _ _ _ _ _ _ _) as [store2 err2]. simpl.
  unfold message_write. rewrite decide_False by done.
  destruct err2; [by left|by right].
Qed.

Lemma handleMessage_chats (client : Client) store (msg : EventsMessage) :
  ∃ name,
    chats (handleMessage client store msg).1
    = replace_chat (ChatRow.mk (JID.String (Chat (Info msg))) name (Timestamp (Info msg)))
                   (chats store).
Proof.
  unfold handleMessage. simpl. eexists.
  case_decide as Hc; [done|].
  destruct (StoreMessage _ _ _ _ _ _ _ _) as [store2 err2] eqn:HS. simpl.
  by apply StoreMessage_effect in HS as (-> & _).
Qed.

Lemma handleMessage_all_text (client : Client) store (msg : EventsMessage) :
  all_text store → all_text (handleMessage client store msg).1.
Proof.
  intros Hall. unfold handleMessage. simpl.
  case_decide as Hc; [done|].
  destruct (StoreMessage _ _ _ _ _ _ _ _) as [store2 err2] eqn:HS. simpl.
  apply StoreMessage_effect in HS as (_ & _ & Htext). apply Htext; [done|by right].
Qed.

Lemma handleMessage_effect (client : Client) store (msg : EventsMessage) :
  handler_effect store (handleMessage client store msg).1
                 (handleMessage client store msg).2.
Proof.
  split.
  - intros seen _.
    destruct (handleMessage_writes client store msg) as [-> | ->]; simpl; [done|].
    rewrite bool_decide_true by set_solver. done.
  - intros j Hj. destruct (handleMessage_chats client store msg) as [name Hch].
    unfold chat_exists in Hj. rewrite Hch in Hj.
    apply (chat_exists_replace_chat (ChatRow.mk _ name _) store) in Hj as [-> | Hj];
      [|by left].
    right. apply elem_of_upserted.
    destruct (handleMessage_writes client store msg) as [-> | ->];
      apply list_elem_of_here.
Qed.

Lemma handleEvent_effect store (evt : Event) :
  handler_effect store (handleEvent store evt).1 (handleEvent store evt).2.
Proof.
  destruct evt as [v| | | | |]; try (split; [done|by left]).
  unfold handleEvent. simpl.
  destruct (StoreMessage _ _ _ _ _ _ _ _) as [store' err] eqn:HS. simpl.
  apply StoreMessage_effect in HS as (Hch & Hok & _). split.
  - intros seen Hseen. unfold message_write.
    case_decide as Hc; [done|]. destruct err; [done|]. simpl.
    rewrite bool_decide_true; [done|]. apply Hseen. by apply Hok.
  - intros j Hj. left. unfold chat_exists in *. by rewrite <- Hch.
Qed.

Lemma handleEvent_all_text store (evt : Event) :
  all_text store →
  (∀ v, evt = EvtMessage v → single_variant (Message v)) →
  all_text (handleEvent store evt).1.
Proof.
  intros Hall Hsingle. destruct evt as [v| | | | |]; try done.
  specialize (Hsingle v eq_refl). unfold handleEvent. simpl.
  destruct (StoreMessage _ _ _ _ _ _ _ _) as [store' err] eqn:HS. simpl.
  apply StoreMessage_effect in HS as (_ & _ & Htext). apply Htext; [done|].
  clear -Hsingle. destruct (Message v) as [[[c|] [e|] [] [] [] []]|];
    simpl in *; unfold content_variants in *; simpl in *; try lia; auto.
Qed.
End handler_effects.

(** ** The loops of [handleHistorySync] *)

Section sync_effects.
Context (client : Client).

Lemma messages_effect_refl chatJID st : messages_effect chatJID st st.
Proof.
  split; [done|]. split; [|done]. exists []. by rewrite app_nil_r.
Qed.

Lemma messages_effect_trans chatJID st1 st2 st3 :
  messages_effect chatJID st1 st2 → messages_effect chatJID st2 st3 →
  messages_effect chatJID st1 st3.
Proof.
  intros (Hc1 & (ws1 & Hw1 & Hf1) & Ht1) (Hc2 & (ws2 & Hw2 & Hf2) & Ht2).
  split; [congruence|]. split; [|auto].
  exists (ws1 ++ ws2). rewrite Hw2, Hw1, app_assoc. split; [done|].
  by apply Forall_app.
Qed.

Lemma store_history_message_effect jid chatJID st msg st' f :
  store_history_message client jid chatJID st msg = (st', f) →
  messages_effect chatJID st st'.
Proof.
  unfold store_history_message.
  destruct (msg ≫= HistMessage) as [m|]; [|intros [= <- _]; apply messages_effect_refl].
  case_decide as Hc; [intros [= <- _]; apply messages_effect_refl|].
  destruct (history_sender client jid m) as [[sender isFromMe]|];
    [|intros [= <- _]; apply messages_effect_refl].
  case_decide as Hts; [intros [= <- _]; apply messages_effect_refl|].
  destruct (StoreMessage _ _ _ _ _ _ _ _) as [store' err] eqn:HS.
  apply StoreMessage_effect in HS as (Hch & _ & Htext).
  destruct err; intros [= <- _]; (split; [done|]); (split; [|intros; apply Htext; auto]).
  - exists []. by rewrite app_nil_r.
  - eexists. split; [done|]. unfold message_write. rewrite decide_False by done.
    apply Forall_singleton. by eexists.
Qed.

Lemma store_history_messages_effect jid chatJID msgs st st' f :
  store_history_messages client jid chatJID msgs st = (st', f) →
  messages_effect chatJID st st'.
Proof.
  revert st. induction msgs as [|msg msgs IH]; intros st; simpl.
  - intros [= <- _]. apply messages_effect_refl.
  - destruct (store_history_message client jid chatJID st msg) as [st1 f1] eqn:H1.
    apply store_history_message_effect in H1.
    destruct f1.
    + intros H2%IH. by eapply messages_effect_trans.
    + by intros [= <- _].
Qed.

Lemma conversations_effect_refl st : conversations_effect st st.
Proof.
  exists []. rewrite app_nil_r. repeat split; auto.
Qed.

Lemma conversations_effect_trans st1 st2 st3 :
  conversations_effect st1 st2 → conversations_effect st2 st3 →
  conversations_effect st1 st3.
Proof.
  intros (ws1 & Hw1 & Ho1 & Hc1 & Ht1) (ws2 & Hw2 & Ho2 & Hc2 & Ht2).
  exists (ws1 ++ ws2). rewrite Hw2, Hw1, app_assoc. split; [done|]. split.
  - intros seen. by rewrite chat_upsert_first_app, Ho1, Ho2.
  - split; [|auto]. intros j Hj. rewrite upserted_app.
    destruct (Hc2 j Hj) as [Hj2|Hj2]; [|right; set_solver].
    destruct (Hc1 j Hj2) as [?|?]; [by left|right; set_solver].
Qed.

Lemma sync_conversation_effect st conversation st' f :
  sync_conversation client st conversation = (st', f) →
  conversations_effect st st'.
Proof.
  unfold sync_conversation.
  destruct (ConvID conversation) as [chatJID|];
    [|intros [= <- _]; apply conversations_effect_refl].
  destruct (ParseJID client chatJID) as [jid|];
    [|intros [= <- _]; apply conversations_effect_refl].
  destruct (Messages conversation) as [|latestMsg rest];
    [intros [= <- _]; apply conversations_effect_refl|].
  destruct (latestMsg ≫= HistMessage) as [latest|];
    [|intros [= <- _]; apply conversations_effect_refl].
  case_decide as Hts; [intros [= <- _]; apply conversations_effect_refl|].
  set (name := (GetChatName _ _ _ _ _ _).1). set (ts := time_Unix _).
  unfold StoreChat, chat_write. cbv beta iota zeta.
  intros (Hch & (ws & Hws & Hall) & Htext)%store_history_messages_effect.
  simpl in *. exists (WriteChat chatJID :: ws).
  split; [by rewrite Hws, <- app_assoc|]. split; [|split; [|done]].
  - intros seen. simpl.
    apply (chat_upsert_first_messages _ chatJID); [set_solver|done].
  - intros j Hj. unfold chat_exists in Hj. rewrite Hch in Hj.
    apply (chat_exists_replace_chat (ChatRow.mk chatJID name ts) (sync_store st))
      in Hj as [-> | Hj]; [|by left].
    right. apply elem_of_upserted, list_elem_of_here.
Qed.

Lemma sync_conversations_effect conversations st st' f :
  sync_conversations client conversations st = (st', f) →
  conversations_effect st st'.
Proof.
  revert st. induction conversations as [|c conversations IH]; intros st; simpl.
  - intros [= <- _]. apply conversations_effect_refl.
  - destruct (sync_conversation client st c) as [st1 f1] eqn:H1.
    apply sync_conversation_effect in H1.
    destruct f1.
    + intros H2%IH. by eapply conversations_effect_trans.
    + by intros [= <- _].
Qed.

Lemma handleHistorySync_effect store historySync :
  conversations_effect (mkSync store [] 0) (handleHistorySync client store historySync).1.
Proof.
  unfold handleHistorySync.
  destruct (sync_conversations _ _ _) as [st' f] eqn:H.
  by apply sync_conversations_effect in H.
Qed.
End sync_effects.

(** ** Executions *)

Section executions.
Implicit Types (store : MessageStore) (log : list Write) (calls : list Call).

Lemma step_effect store (c : Call) :
  handler_effect store (step store c).1 (step store c).2.
Proof.
  destruct c as [evt|client msg|client hs]; simpl.
  - apply handleEvent_effect.
  - apply handleMessage_effect.
  - destruct (handleHistorySync_effect client store hs) as (ws & Hws & Ho & Hc & _).
    simpl in Hws. rewrite Hws. split; [auto|done].
Qed.

Lemma step_all_text store (c : Call) :
  all_text store →
  (∀ v, c = CallHandleEvent (EvtMessage v) → single_variant (Message v)) →
  all_text (step store c).1.
Proof.
  intros Hall Hsingle. destruct c as [evt|client msg|client hs]; simpl.
  - apply handleEvent_all_text; [done|]. intros v ->. by apply Hsingle.
  - by apply handleMessage_all_text.
  - destruct (handleHistorySync_effect client store hs) as (_ & _ & _ & _ & Ht).
    by apply Ht.
Qed.

Lemma run_app calls1 calls2 store log :
  run (calls1 ++ calls2) store log
  = run calls2 (run calls1 store log).1 (run calls1 store log).2.
Proof.
  revert store log. induction calls1 as [|c calls1 IH]; intros store log; simpl; [done|].
  destruct (step store c) as [store' ws]. apply IH.
Qed.

(** The log stays ordered and accounts for every chat row. *)
Lemma run_write_order calls store log :
  chat_upsert_first ∅ log = true →
  (∀ j, chat_exists j store → j ∈ upserted log) →
  chat_upsert_first ∅ (run calls store log).2 = true ∧
  (∀ j, chat_exists j (run calls store log).1 → j ∈ upserted (run calls store log).2).
Proof.
  revert store log. induction calls as [|c calls IH]; intros store log Hlog Hch; simpl.
  { done. }
  destruct (step_effect store c) as [Hord Hnew].
  destruct (step store c) as [store' ws]. simpl in *. apply IH.
  - rewrite chat_upsert_first_app, Hlog. simpl. apply Hord.
    intros j Hj. specialize (Hch j Hj). set_solver.
  - intros j Hj. rewrite upserted_app.
    destruct (Hnew j Hj) as [?|?]; [|set_solver]. specialize (Hch j). set_solver.
Qed.

Lemma run_all_text calls store log :
  all_text store → single_variant_events calls → all_text (run calls store log).1.
Proof.
  revert store log. induction calls as [|c calls IH]; intros store log Hall Hsingle; simpl.
  { done. }
  pose proof (step_all_text store c Hall) as Hstep.
  destruct (step store c) as [store' ws]. simpl in *. apply IH.
  - apply Hstep. intros v ->. apply Hsingle, list_elem_of_here.
  - intros v Hv. apply Hsingle. by apply list_elem_of_further.
Qed.
End executions.

(** C2. In the log of a call of [handleMessage], in the log of a call of
    [handleHistorySync], and in the log of every execution that starts on
    the empty database and interleaves the three handlers, each write of a
    message row comes after a write of the chat row for its chat address. *)
Theorem chat_upsert_precedes_message_write :
  (∀ client store msg,
     chat_upserted_before_message (handleMessage client store msg).2) ∧
  (∀ client store historySync,
     chat_upserted_before_message
       (sync_writes (handleHistorySync client store historySync).1)) ∧
  (∀ calls, chat_upserted_before_message (run calls empty_store []).2).
Proof.
  split; [|split].
  - intros client store msg. apply chat_upsert_first_sound.
    destruct (handleMessage_writes client store msg) as [-> | ->]; simpl; [done|].
    by rewrite bool_decide_true by set_solver.
  - intros client store hs. apply chat_upsert_first_sound.
    destruct (handleHistorySync_effect client store hs) as (ws & Hws & Ho & _).
    simpl in Hws. rewrite Hws. apply Ho.
  - intros calls. apply chat_upsert_first_sound.
    apply run_write_order; [done|]. intros j Hj. by apply elem_of_nil in Hj.
Qed.

(** C9. Along every execution from the empty database in
    which the messages handed to [handleEvent] carry a single-variant
    payload, every row of the messages table has the content kind
    ["text"]; no condition is put on what [handleMessage] and
    [handleHistorySync] receive. *)
Theorem stored_rows_are_text (calls : list Call) :
  single_variant_events calls → all_text (run calls empty_store []).1.
Proof. apply run_all_text. apply Forall_nil_2. Qed.

(** C3, on the handler that is registered with the session: for an event
    without text [handleEvent] returns the database as it found it and
    writes nothing, so the chat row is neither created nor refreshed. *)
Theorem handleEvent_empty_text_no_chat_upsert (file : MessageStore) (v : EventsMessage) :
  extractTextContent (Message v) = "" →
  handleEvent file (EvtMessage v) = (file, []).
Proof.
  intros Hc. unfold handleEvent. rewrite Hc. simpl.
  unfold message_write. by rewrite decide_True.
Qed.

(** [handleEvent] never writes to the chats table. *)
Lemma handleEvent_chats (file : MessageStore) (evt : Event) :
  chats (handleEvent file evt).1 = chats file.
Proof.
  destruct evt as [v| | | | |]; try done.
  unfold handleEvent. simpl.
  destruct (StoreMessage _ _ _ _ _ _ _ _) as [store' err] eqn:HS. simpl.
  by apply StoreMessage_effect in HS as (-> & _).
Qed.

(** The sibling [handleMessage] does what C3 says: without text it writes
    the chat row with the event's timestamp and no message row. *)
Lemma handleMessage_empty_text_refreshes_chat
    (client : Client) (store : MessageStore) (msg : EventsMessage) :
  extractTextContent (Message msg) = "" →
  let chatJID := JID.String (Chat (Info msg)) in
  let name := (GetChatName client store (Chat (Info msg)) chatJID None
                           (JID.User (Sender (Info msg)))).1 in
  handleMessage client store msg
  = (mkStore (replace_chat (ChatRow.mk chatJID name (Timestamp (Info msg))) (chats store))
             (messages store),
     [WriteChat chatJID]).
Proof.
  intros Hc chatJID name. unfold handleMessage. fold chatJID. simpl.
  rewrite Hc. by rewrite decide_True.
Qed.

(** A text message through [handleMessage], the next one through
    [handleEvent]: the chat write is ahead of the second message write. *)
Lemma chat_upsert_precedes_message_write_witness :
  let log := (run [CallHandleMessage sample_client (text_event "m1" "buy 10" 7);
                   CallHandleEvent (EvtMessage (text_event "m2" "sell 5" 8))]
                  empty_store []).2 in
  log = [WriteChat "123@g.us"; WriteMessage "m1" "123@g.us"]
        ++ WriteMessage "m2" "123@g.us" :: [] ∧
  WriteChat "123@g.us" ∈ [WriteChat "123@g.us"; WriteMessage "m1" "123@g.us"].
Proof.
  intros log. assert (log = [WriteChat "123@g.us"; WriteMessage "m1" "123@g.us"]
                            ++ WriteMessage "m2" "123@g.us" :: []) as Hlog
    by reflexivity.
  split; [exact Hlog|].
  destruct chat_upsert_precedes_message_write as (_ & _ & Hrun).
  exact (Hrun _ _ _ _ _ Hlog).
Defined.

(** Two text messages, one per live handler: both rows are ["text"]. *)
Lemma stored_rows_are_text_witness :
  let calls := [CallHandleMessage sample_client (text_event "m1" "buy 10" 7);
                CallHandleEvent (EvtMessage (text_event "m2" "sell 5" 8))] in
  single_variant_events calls ∧
  MessageRow.media_type <$> messages (run calls empty_store []).1 = ["text"; "text"] ∧
  all_text (run calls empty_store []).1.
Proof.
  intros calls.
  assert (single_variant_events calls) as Hsingle.
  { intros v Hv. apply elem_of_cons in Hv as [Hv|Hv]; [discriminate|].
    apply list_elem_of_singleton in Hv. injection Hv as ->. vm_compute. lia. }
  split; [exact Hsingle|]. split; [reflexivity|].
  exact (stored_rows_are_text calls Hsingle).
Defined.

(** C9 does not extend to every payload of [handleEvent]: a message with both the
    [Conversation] and the [ImageMessage] field set, in a chat that
    [handleMessage] made known, is stored with the content kind ["image"]. *)
Lemma handleEvent_stores_image_kind :
  let calls := [CallHandleMessage sample_client (text_event "m1" "buy 10" 7);
                CallHandleEvent (EvtMessage (text_and_image_event "m2" "look" 8))] in
  select_message ("m2", "123@g.us") (messages (run calls empty_store []).1)
  = [MessageRow.mk "m2" "123@g.us" "555@s.whatsapp.net" "look" 8 false "image"] ∧
  ¬ all_text (run calls empty_store []).1.
Proof.
  intros calls. split; [reflexivity|].
  intros Hall. apply Forall_cons in Hall as [_ Hall].
  apply Forall_cons in Hall as [Himage _]. discriminate.
Qed.

(** An image without text in the known chat ["123@g.us"]: [handleEvent]
    leaves the chat row at its old time 5, where [handleMessage] moves it
    to the event's time 7. *)
Lemma handleEvent_empty_text_no_chat_upsert_witness :
  let file := mkStore [ChatRow.mk "123@g.us" "Desk" 5] [] in
  extractTextContent (Message (image_event "m1" 7)) = "" ∧
  handleEvent file (EvtMessage (image_event "m1" 7)) = (file, []) ∧
  handleMessage sample_client file (image_event "m1" 7)
  = (mkStore [ChatRow.mk "123@g.us" "Desk" 7] [], [WriteChat "123@g.us"]).
Proof.
  intros file.
  assert (extractTextContent (Message (image_event "m1" 7)) = "") as Hc by reflexivity.
  split; [exact Hc|]. split; [|reflexivity].
  exact (handleEvent_empty_text_no_chat_upsert file (image_event "m1" 7) Hc).
Defined.

(** * [GetChats] *)

Section get_chats.
Context (parse : Time → option Time).

Lemma scan_chats_list_to_map (rows : list (string * Time)) :
  scan_chats parse rows = list_to_map (reverse (chat_entry parse <$> rows)).
Proof.
  unfold scan_chats. induction rows as [|row rows IH] using rev_ind; [done|].
  rewrite foldl_snoc, IH, fmap_app. simpl. by rewrite reverse_snoc.
Qed.

Lemma chat_entry_keys (rows : list ChatRow.t) :
  (chat_entry parse <$> (chat_columns <$> rows)).*1 = ChatRow.jid <$> rows.
Proof.
  rewrite <- !list_fmap_compose. by apply list_fmap_ext.
Qed.

(** Rows scanned in any order give the same map. *)
Lemma scan_chats_Permutation (rows1 rows2 : list ChatRow.t) :
  NoDup (ChatRow.jid <$> rows1) → rows1 ≡ₚ rows2 →
  scan_chats parse (chat_columns <$> rows1) = scan_chats parse (chat_columns <$> rows2).
Proof.
  intros Hkeys Hperm. rewrite !scan_chats_list_to_map.
  apply list_to_map_proper.
  - rewrite <- fmap_reverse, <- (chat_entry_keys rows1) in *.
    by rewrite reverse_Permutation.
  - by rewrite !reverse_Permutation, Hperm.
Qed.

(** The primary key of [chats] survives [StoreChat]. *)
Lemma StoreChat_primary_key (store : MessageStore) (jid name : string) (t : Time) :
  NoDup (ChatRow.jid <$> chats store) →
  NoDup (ChatRow.jid <$> chats (StoreChat store jid name t).1).
Proof.
  intros Hkeys. unfold StoreChat, replace_chat. simpl.
  rewrite fmap_app. apply NoDup_app. split; [|split].
  - induction (chats store) as [|c tbl IH]; [constructor|].
    apply NoDup_cons in Hkeys as [Hc Htbl].
    rewrite filter_cons. case_decide; [|by apply IH].
    simpl. apply NoDup_cons. split; [|by apply IH].
    intros (y & Hy & Hin)%list_elem_of_fmap. apply Hc.
    apply list_elem_of_fmap. exists y. split; [done|].
    by apply list_elem_of_filter in Hin as [_ ?].
  - intros j (y & -> & Hin)%list_elem_of_fmap Hj.
    apply list_elem_of_filter in Hin as [Hne _].
    simpl in Hj. apply list_elem_of_singleton in Hj. done.
  - simpl. apply NoDup_singleton.
Qed.
End get_chats.

(** C7. Under the primary key of [chats], the map
    [GetChats] builds is the map built from the rows scanned in any other
    order: the [ORDER BY] of the query leaves no trace in the result.  The
    map does hold every chat of the table, each with its parsed time. *)
Theorem GetChats_order_not_observable
    (parse : Time → option Time) (store : MessageStore) (rows : list ChatRow.t) :
  NoDup (ChatRow.jid <$> chats store) →
  rows ≡ₚ chats store →
  scan_chats parse (chat_columns <$> rows) = GetChats parse store ∧
  dom (GetChats parse store) = list_to_set (ChatRow.jid <$> chats store) ∧
  (∀ r, r ∈ chats store →
        GetChats parse store !! ChatRow.jid r
        = Some (default zero_time (parse (ChatRow.last_message_time r)))).
Proof.
  intros Hkeys Hperm.
  assert (GetChats parse store = scan_chats parse (chat_columns <$> chats store)) as ->.
  { unfold GetChats, query_chats. symmetry.
    apply scan_chats_Permutation; [done|].
    symmetry. apply merge_sort_Permutation. }
  split; [|split].
  - apply scan_chats_Permutation; [|done]. by rewrite Hperm.
  - rewrite scan_chats_list_to_map, dom_list_to_map_L.
    rewrite <- fmap_reverse, <- (chat_entry_keys parse).
    apply set_eq. intros j. rewrite !elem_of_list_to_set.
    by rewrite reverse_Permutation.
  - intros r Hr. rewrite scan_chats_list_to_map.
    apply elem_of_list_to_map_1.
    + rewrite <- fmap_reverse, reverse_Permutation.
      by rewrite (chat_entry_keys parse).
    + rewrite elem_of_reverse, <- list_fmap_compose.
      apply list_elem_of_fmap. by exists r.
Qed.

(** Two chats, ["b"] the more recent: the rows in ascending order, which
    the query never delivers, give the very map [GetChats] returns. *)
Lemma GetChats_order_not_observable_witness :
  let store := mkStore [ChatRow.mk "a" "Ann" 1; ChatRow.mk "b" "Bob" 2] [] in
  query_chats (chats store) = [("b", 2); ("a", 1)] ∧
  scan_chats Some [("a", 1); ("b", 2)] = GetChats Some store.
Proof.
  intros store. split; [reflexivity|].
  refine (proj1 (GetChats_order_not_observable Some store (chats store) _ _)).
  - simpl. apply NoDup_cons. split.
    + intros Hin. apply list_elem_of_singleton in Hin. discriminate.
    + apply NoDup_singleton.
  - reflexivity.
Defined.

(** * The send endpoint *)

Lemma sendWhatsAppMessage_calls (client : Client) (recipient message : string)
    (c : SessionCall) :
  c ∈ (sendWhatsAppMessage client recipient message).2 →
  ∃ to, c = CallSendMessage to message.
Proof.
  unfold sendWhatsAppMessage.
  destruct (IsConnected client); simpl; [|by intros ?%elem_of_nil].
  destruct (if contains_at recipient then _ else _) as [to|e];
    [|by intros ?%elem_of_nil].
  destruct (SendMessage client to message);
    intros ->%list_elem_of_singleton; by eexists.
Qed.

(** C8. A POST whose decoded body has an empty recipient or an empty
    message is answered with a status in the 4xx range and has no effect at
    all: [sendWhatsAppMessage] is not called and the session sends nothing.
    The handler calls [sendWhatsAppMessage] exactly for a POST with a
    decodable body whose two fields are non-empty, and the session sends
    only inside such a call. *)
Theorem send_handler_requires_both_fields (client : Client) (r : Request) :
  (∀ req, Method r = "POST" → Body r = Some req →
     SendMessageRequest.Recipient req = "" ∨ SendMessageRequest.Message req = "" →
     client_error (StatusCode (send_handler client r).1) ∧
     (send_handler client r).2 = []) ∧
  (∀ recipient message,
     Delegated recipient message ∈ (send_handler client r).2 ↔
     Method r = "POST" ∧ Body r = Some (SendMessageRequest.mk recipient message) ∧
     recipient ≠ "" ∧ message ≠ "") ∧
  (∀ c, Session c ∈ (send_handler client r).2 →
     ∃ recipient message to,
       c = CallSendMessage to message ∧
       Delegated recipient message ∈ (send_handler client r).2).
Proof.
  unfold send_handler.
  destruct (decide (Method r ≠ "POST")) as [Hm|Hm%dec_stable].
  { split; [|split].
    - intros req ?. done.
    - intros recipient message. split; [by intros ?%elem_of_nil|]. by intros [? _].
    - by intros c ?%elem_of_nil. }
  destruct (Body r) as [[recipient message]|].
  2:{ split; [|split].
      - intros req _ ?. done.
      - intros recipient message. split; [by intros ?%elem_of_nil|].
        by intros (_ & ? & _).
      - by intros c ?%elem_of_nil. }
  simpl. destruct (decide (recipient = "")) as [Hr|Hr].
  { split; [|split].
    - intros req _ _ _. split; [|done]. unfold client_error, StatusBadRequest. simpl. lia.
    - intros recipient' message'. split; [by intros ?%elem_of_nil|].
      intros (_ & [= -> ->] & ? & _). done.
    - by intros c ?%elem_of_nil. }
  destruct (decide (message = "")) as [Hmsg|Hmsg].
  { split; [|split].
    - intros req _ _ _. split; [|done]. unfold client_error, StatusBadRequest. simpl. lia.
    - intros recipient' message'. split; [by intros ?%elem_of_nil|].
      intros (_ & [= -> ->] & _ & ?). done.
    - by intros c ?%elem_of_nil. }
  pose proof (sendWhatsAppMessage_calls client recipient message) as Hcalls.
  destruct (sendWhatsAppMessage client recipient message) as [[success text] calls].
  simpl in *. split; [|split].
  - intros req _ [= <-]. simpl. intros [?|?]; done.
  - intros recipient' message'. rewrite elem_of_cons, list_elem_of_fmap. split.
    + intros [[= -> ->] | (c & ? & _)]; done.
    + intros (_ & [= -> ->] & _). by left.
  - intros c [?|(c' & [= <-] & Hin)%list_elem_of_fmap]%elem_of_cons; [done|].
    destruct (Hcalls c Hin) as [to ->].
    exists recipient, message, to. split; [done|]. apply list_elem_of_here.
Qed.

(** The scenario of the specification, [{recipient: "", message: "hi"}]:
    status 400 and nothing sent; with both fields set the session sends. *)
Lemma send_handler_requires_both_fields_witness :
  let bad := mkRequest "POST" (Some (SendMessageRequest.mk "" "hi")) in
  let good := mkRequest "POST" (Some (SendMessageRequest.mk "555" "hi")) in
  (client_error (StatusCode (send_handler sample_client bad).1) ∧
   (send_handler sample_client bad).2 = []) ∧
  Delegated "555" "hi" ∈ (send_handler sample_client good).2 ∧
  (send_handler sample_client good).2
  = [Delegated "555" "hi";
     Session (CallSendMessage (JID.mk "555" "s.whatsapp.net") "hi")].
Proof.
  intros bad good. split; [|split; [|reflexivity]].
  - destruct (send_handler_requires_both_fields sample_client bad) as (Hbad & _ & _).
    apply (Hbad (SendMessageRequest.mk "" "hi")); [reflexivity|reflexivity|].
    left. reflexivity.
  - destruct (send_handler_requires_both_fields sample_client good) as (_ & Hgood & _).
    apply Hgood. repeat split; discriminate.
Defined.

(** * Laws of the two tables *)

Section keyed_tables.
Context {A K : Type} `{EqDecision K} (key : A → K).
Implicit Types (tbl : list A) (k : K).

Lemma filter_other_keys_twice k tbl :
  filter (λ x, key x ≠ k) (filter (λ x, key x ≠ k) tbl) = filter (λ x, key x ≠ k) tbl.
Proof.
  induction tbl as [|x tbl IH]; [done|].
  rewrite (filter_cons _ x tbl). case_decide as Hx; [|done].
  rewrite filter_cons_True by done. by rewrite IH.
Qed.

Lemma filter_key_other_keys k k' tbl :
  k ≠ k' →
  filter (λ x, key x = k') (filter (λ x, key x ≠ k) tbl) = filter (λ x, key x = k') tbl.
Proof.
  intros Hk. induction tbl as [|x tbl IH]; [done|].
  rewrite (filter_cons (λ x, key x ≠ k) x tbl), (filter_cons (λ x, key x = k') x tbl).
  case_decide as Hx; case_decide as Hy.
  - rewrite filter_cons_True by done. by rewrite IH.
  - by rewrite filter_cons_False.
  - congruence.
  - done.
Qed.

Lemma keys_filter_NoDup (P : A → Prop) `{∀ x, Decision (P x)} tbl :
  NoDup (key <$> tbl) → NoDup (key <$> filter P tbl).
Proof.
  induction tbl as [|x tbl IH]; [done|].
  rewrite fmap_cons, NoDup_cons. intros [Hx Htbl].
  rewrite filter_cons. case_decide; [|by apply IH].
  rewrite fmap_cons, NoDup_cons. split; [|by apply IH].
  intros (y & Hy & Hin)%list_elem_of_fmap. apply Hx.
  apply list_elem_of_fmap. exists y. split; [done|].
  by apply list_elem_of_filter in Hin as [_ ?].
Qed.

Lemma key_not_in_other_keys k tbl :
  k ∉ key <$> filter (λ x, key x ≠ k) tbl.
Proof.
  intros (y & -> & Hin)%list_elem_of_fmap.
  by apply list_elem_of_filter in Hin as [? _].
Qed.

(** Replacing a row keeps the keys unique. *)
Lemma keys_replace_NoDup (r : A) tbl :
  NoDup (key <$> tbl) →
  NoDup (key <$> (filter (λ x, key x ≠ key r) tbl ++ [r])).
Proof.
  intros Hkeys. rewrite fmap_app. apply NoDup_app. split; [|split].
  - by apply keys_filter_NoDup.
  - intros k Hk Hr. simpl in Hr. apply list_elem_of_singleton in Hr as ->.
    by apply key_not_in_other_keys in Hk.
  - simpl. apply NoDup_singleton.
Qed.
End keyed_tables.

Section more_store_facts.
Implicit Types (store : MessageStore) (r : MessageRow.t) (c : ChatRow.t).

Lemma select_chat_replace_chat_ne c j (tbl : list ChatRow.t) :
  ChatRow.jid c ≠ j → select_chat j (replace_chat c tbl) = select_chat j tbl.
Proof.
  intros Hj. unfold select_chat, replace_chat. rewrite filter_app.
  rewrite filter_cons_False by done. rewrite filter_nil, app_nil_r.
  by apply (filter_key_other_keys ChatRow.jid).
Qed.

Lemma replace_chat_twice c1 c2 (tbl : list ChatRow.t) :
  ChatRow.jid c1 = ChatRow.jid c2 →
  replace_chat c2 (replace_chat c1 tbl) = replace_chat c2 tbl.
Proof.
  intros Hj. unfold replace_chat. rewrite <- Hj, filter_app.
  rewrite (filter_other_keys_twice ChatRow.jid).
  rewrite filter_cons_False by (intros H; by apply H).
  by rewrite filter_nil, app_nil_r.
Qed.

Lemma replace_message_twice r1 r2 (tbl : list MessageRow.t) :
  MessageRow.key r1 = MessageRow.key r2 →
  replace_message r2 (replace_message r1 tbl) = replace_message r2 tbl.
Proof.
  intros Hk. unfold replace_message. rewrite <- Hk, filter_app.
  rewrite (filter_other_keys_twice MessageRow.key).
  rewrite filter_cons_False by (intros H; by apply H).
  by rewrite filter_nil, app_nil_r.
Qed.

Lemma message_row_key id chatJID sender content ts isFromMe mediaType :
  MessageRow.key (message_row id chatJID sender content ts isFromMe mediaType)
  = (id, chatJID).
Proof. done. Qed.

Lemma message_row_not_empty id chatJID sender content ts isFromMe mediaType :
  content ≠ "" →
  let r := message_row id chatJID sender content ts isFromMe mediaType in
  MessageRow.content r ≠ "" ∧ MessageRow.sender r ≠ "".
Proof.
  intros Hc. split; [done|]. simpl. by case_decide.
Qed.
End more_store_facts.

(** X1. What [StoreChat] leaves behind: the address selects exactly the
    row just written, every other address selects what it did before, the
    messages table is as it was and no error comes back. *)
Theorem StoreChat_then_select
    (store : MessageStore) (jid name : string) (lastMessageTime : Time) (j : string) :
  let after := StoreChat store jid name lastMessageTime in
  select_chat j (chats after.1)
  = (if decide (j = jid) then [ChatRow.mk jid name lastMessageTime]
     else select_chat j (chats store)) ∧
  messages after.1 = messages store ∧
  after.2 = None.
Proof.
  intros after. split; [|done]. subst after. unfold StoreChat. simpl.
  case_decide as Hj.
  - subst j. apply (select_chat_replace_chat (ChatRow.mk jid name lastMessageTime)).
  - apply select_chat_replace_chat_ne. simpl. congruence.
Qed.

(** X2. [StoreChat] replaces the whole row: of two writes for one address
    only the second is left, as if the first had not happened.  An empty
    name is written like any other, so it erases a stored name and the next
    [GetChatName] falls back to the session lookups. *)
Theorem StoreChat_last_write_wins
    (client : Client) (store : MessageStore) (jid name1 name2 : string)
    (t1 t2 : Time) (address : JID.t) (conversation : option Conversation_)
    (sender : string) :
  StoreChat (StoreChat store jid name1 t1).1 jid name2 t2 = StoreChat store jid name2 t2 ∧
  GetChatName client (StoreChat (StoreChat store jid name1 t1).1 jid "" t2).1
              address jid conversation sender
  = determine_chat_name client address conversation sender.
Proof.
  assert (∀ n, StoreChat (StoreChat store jid name1 t1).1 jid n t2 = StoreChat store jid n t2)
    as Hlast.
  { intros n. unfold StoreChat. simpl. f_equal. f_equal.
    by apply (replace_chat_twice (ChatRow.mk jid name1 t1) (ChatRow.mk jid n t2)). }
  split; [apply Hlast|].
  rewrite Hlast. unfold GetChatName. by rewrite query_chat_name_StoreChat.
Qed.

(** X3. [StoreMessage] is last-write-wins on the full row: a second
    delivery under the same key with non-empty content gives the result and
    the store it would have given without the first one.  A second delivery
    with empty content is dropped and the row of the first one stays. *)
Theorem StoreMessage_last_write_wins
    (store : MessageStore) (id chatJID sender1 content1 sender2 content2 : string)
    (t1 t2 : Time) (fromMe1 fromMe2 : bool) (kind1 kind2 : string) :
  let first := StoreMessage store id chatJID sender1 content1 t1 fromMe1 kind1 in
  (content2 ≠ "" →
   StoreMessage first.1 id chatJID sender2 content2 t2 fromMe2 kind2
   = StoreMessage store id chatJID sender2 content2 t2 fromMe2 kind2) ∧
  StoreMessage first.1 id chatJID sender2 "" t2 fromMe2 kind2 = (first.1, None).
Proof.
  intros first. split; [|done]. intros Hc2. subst first.
  destruct (decide (content1 = "")) as [->|Hc1]; [done|].
  destruct (decide (chat_exists chatJID store)) as [Hj|Hj].
  - rewrite (StoreMessage_written store _ _ sender1) by done. simpl.
    rewrite !StoreMessage_written by done. simpl. f_equal. f_equal.
    by apply replace_message_twice.
  - by rewrite (StoreMessage_rejected store _ _ sender1) by done.
Qed.

(** X4. [StoreMessage] touches one key only: every other key of the
    messages table selects what it did before, and the chats table is never
    written, whether the call stores, is dropped or is rejected. *)
Theorem StoreMessage_frame
    (store : MessageStore) (id chatJID sender content : string) (timestamp : Time)
    (isFromMe : bool) (mediaType : string) (k : string * string) :
  k ≠ (id, chatJID) →
  let after := (StoreMessage store id chatJID sender content timestamp isFromMe mediaType).1 in
  select_message k (messages after) = select_message k (messages store) ∧
  chats after = chats store.
Proof.
  intros Hk after. subst after. unfold StoreMessage, exec_insert_message.
  repeat case_decide; simpl; try done.
  split; [|done]. apply select_replace_message_ne.
  rewrite message_row_key. congruence.
Qed.

(** * Every write goes through [StoreChat] and [StoreMessage] *)

Section store_ops.
Implicit Types (store : MessageStore).

Lemma StoreChat_op store jid name t :
  rtc store_op store (StoreChat store jid name t).1.
Proof. apply rtc_once. constructor. Qed.

Lemma StoreMessage_op store id chatJID sender content ts isFromMe mediaType :
  rtc store_op store (StoreMessage store id chatJID sender content ts isFromMe mediaType).1.
Proof. apply rtc_once. constructor. Qed.

Lemma handleMessage_ops (client : Client) store (msg : EventsMessage) :
  rtc store_op store (handleMessage client store msg).1.
Proof.
  unfold handleMessage. simpl.
  case_decide as Hc; [apply (StoreChat_op store)|].
  destruct (StoreMessage _ _ _ _ _ _ _ _) as [store2 err2] eqn:HS. simpl.
  etrans; [apply (StoreChat_op store)|].
  replace store2 with (store2, err2).1 by done. rewrite <- HS.
  apply StoreMessage_op.
Qed.

Lemma handleEvent_ops store (evt : Event) :
  rtc store_op store (handleEvent store evt).1.
Proof.
  destruct evt as [v| | | | |]; try done.
  unfold handleEvent. simpl.
  destruct (StoreMessage _ _ _ _ _ _ _ _) as [store' err] eqn:HS. simpl.
  replace store' with (store', err).1 by done. rewrite <- HS.
  apply StoreMessage_op.
Qed.

Lemma store_history_message_ops (client : Client) jid chatJID st msg :
  rtc store_op (sync_store st)
      (sync_store (store_history_message client jid chatJID st msg).1).
Proof.
  unfold store_history_message.
  destruct (msg ≫= HistMessage) as [m|]; [|done].
  case_decide; [done|].
  destruct (history_sender client jid m) as [[sender isFromMe]|]; [|done].
  case_decide; [done|].
  destruct (StoreMessage _ _ _ _ _ _ _ _) as [store' err] eqn:HS.
  assert (rtc store_op (sync_store st) store') as Hop.
  { replace store' with (store', err).1 by done. rewrite <- HS. apply StoreMessage_op. }
  by destruct err.
Qed.

Lemma store_history_messages_ops (client : Client) jid chatJID msgs st :
  rtc store_op (sync_store st)
      (sync_store (store_history_messages client jid chatJID msgs st).1).
Proof.
  revert st. induction msgs as [|msg msgs IH]; intros st; simpl; [done|].
  pose proof (store_history_message_ops client jid chatJID st msg) as H1.
  destruct (store_history_message client jid chatJID st msg) as [st1 []]; simpl in *.
  - etrans; [exact H1|apply IH].
  - done.
Qed.

Lemma sync_conversation_ops (client : Client) st conversation :
  rtc store_op (sync_store st) (sync_store (sync_conversation client st conversation).1).
Proof.
  unfold sync_conversation.
  destruct (ConvID conversation) as [chatJID|]; [|done].
  destruct (ParseJID client chatJID) as [jid|]; [|done].
  destruct (Messages conversation) as [|latestMsg rest]; [done|].
  destruct (latestMsg ≫= HistMessage) as [latest|]; [|done].
  case_decide; [done|].
  set (name := (GetChatName _ _ _ _ _ _).1). set (ts := time_Unix _).
  destruct (StoreChat (sync_store st) chatJID name ts) as [store1 err1] eqn:HS.
  etrans; [|apply store_history_messages_ops]. simpl.
  replace store1 with (store1, err1).1 by done. rewrite <- HS. apply StoreChat_op.
Qed.

Lemma sync_conversations_ops (client : Client) conversations st :
  rtc store_op (sync_store st)
      (sync_store (sync_conversations client conversations st).1).
Proof.
  revert st. induction conversations as [|c conversations IH]; intros st; simpl; [done|].
  pose proof (sync_conversation_ops client st c) as H1.
  destruct (sync_conversation client st c) as [st1 []]; simpl in *.
  - etrans; [exact H1|apply IH].
  - done.
Qed.

Lemma step_ops store (c : Call) : rtc store_op store (step store c).1.
Proof.
  destruct c as [evt|client msg|client hs]; simpl.
  - apply handleEvent_ops.
  - apply handleMessage_ops.
  - apply (sync_conversations_ops client (Conversations hs) (mkSync store [] 0)).
Qed.

Lemma run_ops (calls : list Call) store log :
  rtc store_op store (run calls store log).1.
Proof.
  revert store log. induction calls as [|c calls IH]; intros store log; simpl; [done|].
  pose proof (step_ops store c) as H1.
  destruct (step store c) as [store' ws]. simpl in *.
  etrans; [exact H1|apply IH].
Qed.

(** Anything the two store methods keep, every sequence of them keeps. *)
Lemma store_ops_preserve (P : MessageStore → Prop) :
  (∀ s s', store_op s s' → P s → P s') →
  ∀ s s', rtc store_op s s' → P s → P s'.
Proof. intros Hop s s' Hrtc. induction Hrtc; eauto. Qed.

Lemma store_op_ok store store' : store_op store store' → store_ok store → store_ok store'.
Proof.
  intros Hop [Hck Hmk Hfk Hne]. destruct Hop as [store jid name t|store id chatJID sender content ts isFromMe mediaType].
  - split; simpl.
    + by apply (keys_replace_NoDup ChatRow.jid (ChatRow.mk jid name t)).
    + done.
    + intros r Hr. apply (chat_exists_replace_chat (ChatRow.mk jid name t) store).
      right. by apply Hfk.
    + done.
  - unfold StoreMessage, exec_insert_message.
    case_decide as Hc; [done|]. case_decide as Hj; [|done].
    set (r := message_row _ _ _ _ _ _ _).
    split; simpl.
    + done.
    + by apply (keys_replace_NoDup MessageRow.key r).
    + intros r' [Hr'|Hr']%elem_of_app.
      * apply list_elem_of_filter in Hr' as [_ Hr']. by apply Hfk.
      * apply list_elem_of_singleton in Hr' as ->. done.
    + intros r' [Hr'|Hr']%elem_of_app.
      * apply list_elem_of_filter in Hr' as [_ Hr']. by apply Hne.
      * apply list_elem_of_singleton in Hr' as ->. by apply message_row_not_empty.
Qed.

Lemma store_op_keeps_chats store store' j :
  store_op store store' → chat_exists j store → chat_exists j store'.
Proof.
  intros Hop Hj. destruct Hop as [store jid name t|store id chatJID sender content ts isFromMe mediaType].
  - apply (chat_exists_replace_chat (ChatRow.mk jid name t) store). by right.
  - unfold chat_exists in *. by rewrite StoreMessage_chats.
Qed.

Lemma store_op_keeps_messages store store' (k : string * string) :
  store_op store store' →
  k ∈ MessageRow.key <$> messages store → k ∈ MessageRow.key <$> messages store'.
Proof.
  intros Hop Hk. destruct Hop as [store jid name t|store id chatJID sender content ts isFromMe mediaType];
    [done|].
  unfold StoreMessage, exec_insert_message.
  case_decide as Hc; [done|]. case_decide as Hj; [|done]. simpl.
  unfold replace_message. rewrite fmap_app, elem_of_app.
  destruct (decide (k = (id, chatJID))) as [->|Hne].
  - right. simpl. apply list_elem_of_here.
  - left. apply list_elem_of_fmap in Hk as (y & -> & Hy).
    apply list_elem_of_fmap. exists y. split; [done|].
    apply list_elem_of_filter. split; [|done]. by rewrite message_row_key.
Qed.
End store_ops.

(** X5. The invariants of the database hold along every execution: each
    handler call keeps unique chat addresses, unique [(id, chat_jid)] keys,
    a chat row for every message row, and non-empty content and sender in
    every message row; so they hold after any sequence of handler calls on
    the fresh database. *)
Theorem store_ok_along_executions :
  (∀ store c, store_ok store → store_ok (step store c).1) ∧
  (∀ calls, store_ok (run calls empty_store []).1).
Proof.
  split.
  - intros store c. apply (store_ops_preserve store_ok store_op_ok), step_ops.
  - intros calls.
    apply (store_ops_preserve store_ok store_op_ok empty_store); [apply run_ops|].
    split; simpl; [apply NoDup_nil_2 | apply NoDup_nil_2 | |]; by intros r ?%elem_of_nil.
Qed.

(** X6. Nothing is ever deleted: a chat address that has a row and a
    message key that has a row still have one after any sequence of handler
    calls. *)
Theorem rows_are_never_deleted
    (calls : list Call) (store : MessageStore) (log : list Write) :
  (∀ j, chat_exists j store → chat_exists j (run calls store log).1) ∧
  (∀ k, k ∈ MessageRow.key <$> messages store →
        k ∈ MessageRow.key <$> messages (run calls store log).1).
Proof.
  split.
  - intros j. apply (store_ops_preserve (chat_exists j)); [|apply run_ops].
    intros s s'. apply store_op_keeps_chats.
  - intros k.
    apply (store_ops_preserve (λ s, k ∈ MessageRow.key <$> messages s)); [|apply run_ops].
    intros s s'. apply store_op_keeps_messages.
Qed.

(** X7. [handleEvent] stores a message only in a chat that already has a
    row: for any other chat the call leaves the database as it is, whatever
    the payload.  The events handler never creating a chat row, an
    execution made of [handleEvent] calls alone leaves the fresh database
    empty. *)
Theorem handleEvent_needs_chat_row :
  (∀ file v, ¬ chat_exists (JID.String (Chat (Info v))) file →
             handleEvent file (EvtMessage v) = (file, [])) ∧
  (∀ calls, only_handleEvent calls → run calls empty_store [] = (empty_store, [])).
Proof.
  assert (∀ file v, ¬ chat_exists (JID.String (Chat (Info v))) file →
                    handleEvent file (EvtMessage v) = (file, [])) as Hone.
  { intros file v Hj. unfold handleEvent, StoreMessage, exec_insert_message. simpl.
    case_decide as Hc; simpl.
    - unfold message_write. by rewrite decide_True.
    - rewrite decide_False by done. simpl. unfold message_write.
      by rewrite decide_False. }
  split; [exact Hone|].
  intros calls Hcalls. induction Hcalls as [|c calls [evt ->] _ IH]; [done|].
  simpl. assert (handleEvent empty_store evt = (empty_store, [])) as ->; [|exact IH].
  destruct evt as [v| | | | |]; try done.
  apply Hone. by intros ?%elem_of_nil.
Qed.

(** * [GetMessages] *)

Section get_messages.
Implicit Types (store : MessageStore) (tbl rows : list MessageRow.t).

Lemma sql_limit_length {A : Type} (limit : Z) (l : list A) :
  length (sql_limit limit l)
  = if decide (limit < 0) then length l else min (Z.to_nat limit) (length l).
Proof. unfold sql_limit. case_decide; [done|]. apply length_take. Qed.

Lemma sql_limit_subseteq {A : Type} (limit : Z) (l : list A) : sql_limit limit l ⊆ l.
Proof. unfold sql_limit. case_decide; [done|]. apply subseteq_take. Qed.

Lemma sql_limit_all {A : Type} (limit : Z) (l : list A) :
  limit < 0 ∨ Z.of_nat (length l) ≤ limit → sql_limit limit l = l.
Proof.
  intros Hl. unfold sql_limit. case_decide; [done|]. apply take_ge. lia.
Qed.

Lemma sql_limit_head {A : Type} (limit : Z) (l : list A) :
  limit ≠ 0 → head (sql_limit limit l) = head l.
Proof.
  intros Hl. unfold sql_limit. case_decide; [done|].
  destruct (Z.to_nat limit) as [|n] eqn:Hn; [lia|]. by destruct l.
Qed.

Lemma sql_limit_sorted (limit : Z) rows :
  StronglySorted newer_first rows → StronglySorted newer_first (sql_limit limit rows).
Proof.
  unfold sql_limit. case_decide; [done|]. intros Hs.
  rewrite <- (take_drop (Z.to_nat limit) rows) in Hs.
  by apply StronglySorted_app_1_l in Hs.
Qed.

Lemma query_messages_elem_of chatJID limit tbl r :
  r ∈ query_messages chatJID limit tbl → r ∈ tbl ∧ MessageRow.chat_jid r = chatJID.
Proof.
  unfold query_messages. intros Hr%sql_limit_subseteq.
  rewrite merge_sort_Permutation in Hr.
  apply list_elem_of_filter in Hr. tauto.
Qed.

(** The head of a sorted list is the row that is strictly newer than all
    the others. *)
Lemma sorted_head_newest rows r :
  StronglySorted newer_first rows → r ∈ rows →
  (∀ r', r' ∈ rows → r' ≠ r → MessageRow.timestamp r' < MessageRow.timestamp r) →
  head rows = Some r.
Proof.
  intros Hs Hr Hnew. destruct rows as [|h rows]; [by apply elem_of_nil in Hr|].
  simpl. f_equal. destruct (decide (h = r)) as [|Hne]; [done|].
  apply StronglySorted_cons in Hs as [Hh _].
  apply elem_of_cons in Hr as [->|Hr]; [done|].
  assert (newer_first h r) as Hle by (eapply Forall_forall in Hh; eauto).
  specialize (Hnew h (list_elem_of_here _ _) Hne). unfold newer_first in Hle. lia.
Qed.
End get_messages.

(** X8. What [GetMessages] returns: the scan of rows that are sorted by
    timestamp, newest first, and that all belong to the messages table and
    to the chat asked for; as many of them as the chat has, cut at [limit]
    when [limit] is not negative; and all of the chat's rows when [limit]
    is negative or not below their number. *)
Theorem GetMessages_result
    (parse : Time → option Time) (store : MessageStore) (chatJID : string) (limit : Z) :
  let rows := query_messages chatJID limit (messages store) in
  let count := length (chat_messages chatJID (messages store)) in
  GetMessages parse store chatJID limit = scan_message parse <$> rows ∧
  StronglySorted newer_first rows ∧
  (∀ r, r ∈ rows → r ∈ messages store ∧ MessageRow.chat_jid r = chatJID) ∧
  length (GetMessages parse store chatJID limit)
  = (if decide (limit < 0) then count else min (Z.to_nat limit) count) ∧
  (limit < 0 ∨ Z.of_nat count ≤ limit → rows ≡ₚ chat_messages chatJID (messages store)).
Proof.
  intros rows count. split; [done|]. split; [|split; [|split]].
  - apply sql_limit_sorted. apply StronglySorted_merge_sort; apply _.
  - intros r Hr. by apply (query_messages_elem_of chatJID limit).
  - unfold GetMessages. rewrite length_fmap. unfold query_messages.
    rewrite sql_limit_length. subst count. unfold chat_messages.
    by rewrite (Permutation_length (merge_sort_Permutation newer_first _)).
  - intros Hl. subst rows count. unfold query_messages, chat_messages in *.
    rewrite sql_limit_all; [apply merge_sort_Permutation|].
    by rewrite (Permutation_length (merge_sort_Permutation newer_first _)).
Qed.

(** X9. A message stored with a timestamp later than every row the chat
    has so far is the first one [GetMessages] returns, for every limit
    other than 0. *)
Theorem GetMessages_latest_first
    (parse : Time → option Time) (store : MessageStore)
    (id chatJID sender content : string) (timestamp : Time) (isFromMe : bool)
    (mediaType : string) (limit : Z) :
  content ≠ "" → chat_exists chatJID store → limit ≠ 0 →
  (∀ r, r ∈ messages store → MessageRow.chat_jid r = chatJID →
        MessageRow.timestamp r < timestamp) →
  let after := (StoreMessage store id chatJID sender content timestamp isFromMe mediaType).1 in
  head (GetMessages parse after chatJID limit)
  = Some (scan_message parse
            (message_row id chatJID sender content timestamp isFromMe mediaType)).
Proof.
  intros Hc Hj Hl Hnew after. subst after.
  rewrite StoreMessage_written by done. simpl.
  set (r := message_row _ _ _ _ _ _ _).
  unfold GetMessages, query_messages. simpl.
  set (rows := merge_sort newer_first _).
  assert (head rows = Some r) as Hhead.
  { apply sorted_head_newest.
    - apply StronglySorted_merge_sort; apply _.
    - subst rows. rewrite merge_sort_Permutation.
      apply list_elem_of_filter. split; [done|].
      unfold replace_message. rewrite elem_of_app. right. apply list_elem_of_here.
    - intros r' Hr' Hne. subst rows. rewrite merge_sort_Permutation in Hr'.
      apply list_elem_of_filter in Hr' as [Hchat Hr'].
      unfold replace_message in Hr'. apply elem_of_app in Hr' as [Hr'|Hr'].
      + apply list_elem_of_filter in Hr' as [_ Hr']. by apply Hnew.
      + by apply list_elem_of_singleton in Hr'. }
  rewrite <- (sql_limit_head limit rows Hl) in Hhead.
  destruct (sql_limit limit rows); simpl in *; congruence.
Qed.

(** * [handleMessage] *)

Section handle_message.
Context (client : Client).
Implicit Types (store : MessageStore) (msg : EventsMessage).

(** The result of [handleMessage], spelled out. *)
Lemma handleMessage_unfold store msg :
  let chatJID := JID.String (Chat (Info msg)) in
  let sender := JID.User (Sender (Info msg)) in
  let name := (GetChatName client store (Chat (Info msg)) chatJID None sender).1 in
  let content := extractTextContent (Message msg) in
  let chat := ChatRow.mk chatJID name (Timestamp (Info msg)) in
  let row := message_row (ID (Info msg)) chatJID sender content (Timestamp (Info msg))
                         (IsFromMe (Info msg)) "text" in
  handleMessage client store msg
  = if decide (content = "")
    then (mkStore (replace_chat chat (chats store)) (messages store),
          [WriteChat chatJID])
    else (mkStore (replace_chat chat (chats store))
                  (replace_message row (messages store)),
          [WriteChat chatJID; WriteMessage (ID (Info msg)) chatJID]).
Proof.
  intros chatJID sender name content chat row. unfold handleMessage.
  fold chatJID sender. fold name. fold content. simpl.
  case_decide as Hc; [done|].
  rewrite StoreMessage_written; [|done|].
  - simpl. unfold message_write. by rewrite decide_False.
  - apply (chat_exists_replace_chat chat store). by left.
Qed.

(** A name that was resolved and then stored resolves to itself. *)
Lemma GetChatName_stable store store' (jid : JID.t) (chatJID : string)
    (conversation : option Conversation_) (sender : string) :
  let name := (GetChatName client store jid chatJID conversation sender).1 in
  query_chat_name store' chatJID = Some name →
  (GetChatName client store' jid chatJID conversation sender).1 = name.
Proof.
  intros name Hq. unfold GetChatName at 1. rewrite Hq.
  case_decide as Hn; [done|].
  subst name. unfold GetChatName in *.
  destruct (query_chat_name store chatJID) as [existing|]; [|done].
  case_decide as He; [|done]. simpl in Hn. congruence.
Qed.
End handle_message.

(** X10. After [handleMessage] the chat address selects one row, with the
    resolved name and the event's timestamp; the key [(ID, chat)] selects
    the message row with the sender's user part, the extracted text and the
    kind ["text"] when there is text, and what it selected before when
    there is none.  The call never fails on the foreign key, its own chat
    upsert coming first. *)
Theorem handleMessage_then_select
    (client : Client) (store : MessageStore) (msg : EventsMessage) :
  let chatJID := JID.String (Chat (Info msg)) in
  let sender := JID.User (Sender (Info msg)) in
  let name := (GetChatName client store (Chat (Info msg)) chatJID None sender).1 in
  let content := extractTextContent (Message msg) in
  let after := (handleMessage client store msg).1 in
  select_chat chatJID (chats after)
  = [ChatRow.mk chatJID name (Timestamp (Info msg))] ∧
  select_message (ID (Info msg), chatJID) (messages after)
  = if decide (content = "")
    then select_message (ID (Info msg), chatJID) (messages store)
    else [message_row (ID (Info msg)) chatJID sender content (Timestamp (Info msg))
                      (IsFromMe (Info msg)) "text"].
Proof.
  intros chatJID sender name content after. subst after.
  rewrite handleMessage_unfold. fold chatJID sender. fold name. fold content.
  case_decide as Hc; simpl.
  - split; [|done].
    apply (select_chat_replace_chat (ChatRow.mk chatJID name (Timestamp (Info msg)))).
  - split.
    + apply (select_chat_replace_chat (ChatRow.mk chatJID name (Timestamp (Info msg)))).
    + apply (select_replace_message
               (message_row (ID (Info msg)) chatJID sender content
                            (Timestamp (Info msg)) (IsFromMe (Info msg)) "text")).
Qed.

(** X11. [handleMessage] touches its own chat and its own message key
    only: every other chat address and every other message key selects
    what it did before. *)
Theorem handleMessage_frame
    (client : Client) (store : MessageStore) (msg : EventsMessage)
    (j : string) (k : string * string) :
  let chatJID := JID.String (Chat (Info msg)) in
  let after := (handleMessage client store msg).1 in
  (j ≠ chatJID → select_chat j (chats after) = select_chat j (chats store)) ∧
  (k ≠ (ID (Info msg), chatJID) →
   select_message k (messages after) = select_message k (messages store)).
Proof.
  intros chatJID after. subst after. rewrite handleMessage_unfold. fold chatJID.
  split.
  - intros Hj. case_decide; simpl; apply select_chat_replace_chat_ne; simpl; congruence.
  - intros Hk. case_decide; simpl; [done|].
    apply select_replace_message_ne. rewrite message_row_key. congruence.
Qed.

(** X12. Redelivery through [handleMessage]: handling the same event a
    second time, with the session answering as before, returns the same
    database and the same writes as handling it once. *)
Theorem handleMessage_redelivery
    (client : Client) (store : MessageStore) (msg : EventsMessage) :
  handleMessage client (handleMessage client store msg).1 msg
  = handleMessage client store msg.
Proof.
  set (chatJID := JID.String (Chat (Info msg))).
  set (sender := JID.User (Sender (Info msg))).
  set (name := (GetChatName client store (Chat (Info msg)) chatJID None sender).1).
  set (chat := ChatRow.mk chatJID name (Timestamp (Info msg))).
  assert (∀ msgs,
    (GetChatName client (mkStore (replace_chat chat (chats store)) msgs)
                 (Chat (Info msg)) chatJID None sender).1 = name) as Hname.
  { intros msgs. apply GetChatName_stable. unfold query_chat_name. simpl.
    by rewrite (select_chat_replace_chat chat). }
  rewrite (handleMessage_unfold client store msg). fold chatJID sender. fold name. fold chat.
  case_decide as Hc.
  - rewrite handleMessage_unfold. simpl. fold chatJID sender.
    rewrite Hname. fold chat. rewrite decide_True by done.
    by rewrite (replace_chat_twice chat chat).
  - rewrite handleMessage_unfold. simpl. fold chatJID sender.
    rewrite Hname. fold chat. rewrite decide_False by done.
    rewrite (replace_chat_twice chat chat) by done.
    by rewrite replace_message_idem.
Qed.

(** * Text extraction *)

(** X13. The two ingestion paths read the same text from a payload:
    [handleHistorySync] extracts from an envelope what [extractTextContent]
    extracts from its message.  Text is found only in the [Conversation]
    field or, that one being empty, in the extended text message: a payload
    with neither has no text, whatever media it carries. *)
Theorem text_extraction_agrees :
  (∀ m, history_content m = extractTextContent (WebMessage m)) ∧
  (∀ p, Conversation p = None → ExtendedText p = None →
        extractTextContent (Some p) = "") ∧
  (∀ p text, Conversation p = Some text → text ≠ "" →
             extractTextContent (Some p) = text).
Proof.
  split; [|split].
  - intros m. unfold history_content, extractTextContent.
    by destruct (WebMessage m).
  - intros p Hc He. unfold extractTextContent, GetConversation, GetExtendedTextMessage.
    simpl. by rewrite Hc, He.
  - intros p text Hc Ht. unfold extractTextContent, GetConversation. simpl.
    rewrite Hc. simpl. by rewrite decide_True.
Qed.

(** * Session lookups of [GetChatName] *)

(** X14. [GetChatName] asks the session at most once, and only about the
    address it resolves: group info for a group address, the contact entry
    for any other.  For a group whose sync conversation carries a display
    name or a name it does not ask at all. *)
Theorem GetChatName_lookups
    (client : Client) (store : MessageStore) (jid : JID.t) (chatJID : string)
    (conversation : option Conversation_) (sender : string) :
  let calls := (GetChatName client store jid chatJID conversation sender).2 in
  (length calls ≤ 1)%nat ∧
  (∀ c, c ∈ calls →
        c = if decide (JID.Server jid = "g.us")
            then CallGetGroupInfo jid else CallGetContact jid) ∧
  (JID.Server jid = "g.us" → conversation_name conversation ≠ "" → calls = []).
Proof.
  intros calls. subst calls. unfold GetChatName.
  assert (let calls := (determine_chat_name client jid conversation sender).2 in
          (length calls ≤ 1)%nat ∧
          (∀ c, c ∈ calls →
                c = if decide (JID.Server jid = "g.us")
                    then CallGetGroupInfo jid else CallGetContact jid) ∧
          (JID.Server jid = "g.us" → conversation_name conversation ≠ "" → calls = []))
    as Hdet.
  { unfold determine_chat_name. case_decide as Hg.
    - case_decide as Hn.
      + destruct (GetGroupInfo client jid) as [g|]; [case_decide|]; simpl;
          (split; [lia|]); (split; [by intros c ->%list_elem_of_singleton|done]).
      + simpl. split; [lia|]. split; [by intros c ?%elem_of_nil|done].
    - destruct (GetContact client jid) as [c|]; repeat case_decide; simpl;
        (split; [lia|]); (split; [by intros ? ->%list_elem_of_singleton|done]). }
  destruct (query_chat_name store chatJID) as [existing|]; [|exact Hdet].
  destruct (decide (existing ≠ "")); [|exact Hdet]. simpl.
  split; [lia|]. split; [by intros c ?%elem_of_nil|done].
Qed.

(** * Sending *)

(** A reported success comes from one send that returned no error. *)
Lemma sendWhatsAppMessage_success (client : Client) (recipient message : string) :
  (sendWhatsAppMessage client recipient message).1.1 = true →
  ∃ to, (sendWhatsAppMessage client recipient message).2 = [CallSendMessage to message] ∧
        SendMessage client to message = None.
Proof.
  unfold sendWhatsAppMessage.
  destruct (IsConnected client); simpl; [|done].
  destruct (if contains_at recipient then _ else _) as [to|e]; simpl; [|done].
  destruct (SendMessage client to message) as [e|] eqn:Hsend; simpl; [done|].
  intros _. by exists to.
Qed.

(** X15. [sendWhatsAppMessage] calls the session's send at most once.  It
    reports success exactly when that one call was made and returned no
    error; a session that is not connected is not called at all; and a
    recipient without ['@'] is sent to as [recipient@s.whatsapp.net],
    without going through [ParseJID]. *)
Theorem sendWhatsAppMessage_outcome (client : Client) (recipient message : string) :
  let result := sendWhatsAppMessage client recipient message in
  (length result.2 ≤ 1)%nat ∧
  (result.1.1 = true ↔
   ∃ to, result.2 = [CallSendMessage to message] ∧ SendMessage client to message = None) ∧
  (IsConnected client = false →
   result = ((false, "Not connected to WhatsApp"), [])) ∧
  (IsConnected client = true → contains_at recipient = false →
   result.2 = [CallSendMessage (JID.mk recipient "s.whatsapp.net") message]).
Proof.
  intros result. subst result. unfold sendWhatsAppMessage.
  destruct (IsConnected client); simpl.
  2:{ split; [lia|]. split; [|done]. split; [done|]. by intros (to & ? & _). }
  destruct (contains_at recipient); simpl.
  - destruct (ParseJID client recipient) as [to|e]; simpl.
    + destruct (SendMessage client to message) as [e|] eqn:Hsend; simpl.
      * split; [lia|]. split; [|done]. split; [done|].
        intros (to' & [= <-] & Hnone). congruence.
      * split; [lia|]. split; [|done]. split; [|done]. intros _. by exists to.
    + split; [lia|]. split; [|done]. split; [done|]. by intros (to & ? & _).
  - destruct (SendMessage client _ message) as [e|] eqn:Hsend; simpl.
    + split; [lia|]. split; [|done]. split; [done|].
      intros (to' & [= <-] & Hnone). congruence.
    + split; [lia|]. split; [|done]. split; [|done]. intros _. by eexists.
Qed.

(** X16. Status and body of the send endpoint agree: the answer is 200,
    400, 405 or 500; a JSON body comes with 200 when its [success] is true
    and with 500 when it is false; and 200 is answered only after a send
    through the session that returned no error.  A request that is not a
    POST gets 405 and has no effect. *)
Theorem send_handler_status (client : Client) (r : Request) :
  let response := (send_handler client r).1 in
  let effects := (send_handler client r).2 in
  StatusCode response ∈ [StatusOK; StatusBadRequest; StatusMethodNotAllowed;
                         StatusInternalServerError] ∧
  (∀ body, Payload response = Json body →
     StatusCode response
     = if SendMessageResponse.Success body then StatusOK else StatusInternalServerError) ∧
  (StatusCode response = StatusOK →
     ∃ to message, Session (CallSendMessage to message) ∈ effects ∧
                   SendMessage client to message = None) ∧
  (Method r ≠ "POST" →
     response = http_Error "Method not allowed" StatusMethodNotAllowed ∧ effects = []).
Proof.
  intros response effects. subst response effects. unfold send_handler.
  destruct (decide (Method r ≠ "POST")) as [Hm|Hm]; simpl.
  { split; [set_solver|]. repeat split; done. }
  destruct (Body r) as [[recipient message]|]; simpl.
  2:{ split; [set_solver|]. repeat split; done. }
  destruct (decide (recipient = "")); simpl.
  { split; [set_solver|]. repeat split; done. }
  destruct (decide (message = "")); simpl.
  { split; [set_solver|]. repeat split; done. }
  pose proof (sendWhatsAppMessage_success client recipient message) as Hok.
  destruct (sendWhatsAppMessage client recipient message) as [[success text] calls].
  simpl in *. destruct success; simpl.
  - split; [set_solver|]. split; [by intros body [= <-]|]. split; [|done].
    intros _. destruct (Hok eq_refl) as (to & -> & Hsend).
    exists to, message. split; [|done]. simpl. set_solver.
  - split; [set_solver|]. split; [by intros body [= <-]|]. split; done.
Qed.

(** X17. Sending while the session is not connected: a well-formed POST is
    answered with status 500 and the body [{success: false, message: "Not
    connected to WhatsApp"}], and the session's send is not called. *)
Theorem send_handler_not_connected
    (client : Client) (r : Request) (recipient message : string) :
  IsConnected client = false →
  Method r = "POST" →
  Body r = Some (SendMessageRequest.mk recipient message) →
  recipient ≠ "" → message ≠ "" →
  send_handler client r
  = (mkResponse StatusInternalServerError
       (Json (SendMessageResponse.mk false "Not connected to WhatsApp")),
     [Delegated recipient message]).
Proof.
  intros Hconn Hm Hb Hr Hmsg. unfold send_handler.
  rewrite decide_False by (intros H; by apply H). rewrite Hb. simpl.
  rewrite !decide_False by done.
  unfold sendWhatsAppMessage. by rewrite Hconn.
Qed.

(** X18. The tool endpoint acknowledges without sending: every POST that
    names ["send_message"] with decodable arguments is answered 200 with
    [{success: true, message: "Message sent"}], whatever the arguments are,
    empty fields included; every other request gets a 4xx status.  The
    handler has no access to the session. *)
Theorem handleMCPCall_acknowledges (r : MCPRequest) :
  (∀ args, MCPMethod r = "POST" →
           MCPBody r = Some (mkMCPCall "send_message" (Some args)) →
           handleMCPCall r
           = mkResponse StatusOK (Json (SendMessageResponse.mk true "Message sent"))) ∧
  (StatusCode (handleMCPCall r) = StatusOK ∨ client_error (StatusCode (handleMCPCall r))) ∧
  (StatusCode (handleMCPCall r) = StatusOK →
   MCPMethod r = "POST" ∧
   ∃ args, MCPBody r = Some (mkMCPCall "send_message" (Some args))).
Proof.
  unfold handleMCPCall, client_error.
  destruct (decide (MCPMethod r ≠ "POST")) as [Hm|Hm%dec_stable]; simpl.
  { split; [by intros args' ?|]. split; [right; unfold StatusMethodNotAllowed; lia|].
    unfold StatusMethodNotAllowed, StatusOK. lia. }
  destruct (MCPBody r) as [[name args]|]; simpl.
  2:{ split; [by intros args' _ ?|]. split; [right; unfold StatusBadRequest; lia|].
      unfold StatusBadRequest, StatusOK. lia. }
  destruct (decide (name = "send_message")) as [->|Hn]; simpl.
  - destruct args as [args|]; simpl.
    + split; [done|]. split; [by left|]. intros _. split; [done|]. by exists args.
    + split; [by intros args' _ [= ]|]. split; [right; unfold StatusBadRequest; lia|].
      unfold StatusBadRequest, StatusOK. lia.
  - split; [intros args' _ [= ]; done|]. split; [right; unfold StatusBadRequest; lia|].
    unfold StatusBadRequest, StatusOK. lia.
Qed.

(** * More on [handleHistorySync] *)

Section sync_more.
Context (client : Client).

Lemma message_writes_app (log ws : list Write) :
  message_writes (log ++ ws) = (message_writes log + message_writes ws)%nat.
Proof. unfold message_writes. by rewrite filter_app, length_app. Qed.

Lemma store_history_message_count jid chatJID st msg :
  let st' := (store_history_message client jid chatJID st msg).1 in
  (syncedCount st' + message_writes (sync_writes st)
   = syncedCount st + message_writes (sync_writes st'))%nat.
Proof.
  unfold store_history_message.
  destruct (msg ≫= HistMessage) as [m|]; [|done].
  case_decide as Hc; [done|].
  destruct (history_sender client jid m) as [[sender isFromMe]|]; [|done].
  case_decide; [done|].
  destruct (StoreMessage _ _ _ _ _ _ _ _) as [store' [e|]]; simpl; [done|].
  rewrite message_writes_app. unfold message_write. rewrite decide_False by done.
  unfold message_writes. simpl. lia.
Qed.

Lemma store_history_messages_count jid chatJID msgs st :
  let st' := (store_history_messages client jid chatJID msgs st).1 in
  (syncedCount st' + message_writes (sync_writes st)
   = syncedCount st + message_writes (sync_writes st'))%nat.
Proof.
  revert st. induction msgs as [|msg msgs IH]; intros st; simpl; [done|].
  pose proof (store_history_message_count jid chatJID st msg) as H1.
  destruct (store_history_message client jid chatJID st msg) as [st1 []]; simpl in *.
  - specialize (IH st1). simpl in IH. lia.
  - done.
Qed.

Lemma sync_conversation_count st conversation :
  let st' := (sync_conversation client st conversation).1 in
  (syncedCount st' + message_writes (sync_writes st)
   = syncedCount st + message_writes (sync_writes st'))%nat.
Proof.
  unfold sync_conversation.
  destruct (ConvID conversation) as [chatJID|]; [|done].
  destruct (ParseJID client chatJID) as [jid|]; [|done].
  destruct (Messages conversation) as [|latestMsg rest]; [done|].
  destruct (latestMsg ≫= HistMessage) as [latest|]; [|done].
  case_decide; [done|].
  set (name := (GetChatName _ _ _ _ _ _).1). set (ts := time_Unix _).
  unfold StoreChat, chat_write. cbv beta iota zeta.
  set (st1 := mkSync _ _ _).
  pose proof (store_history_messages_count jid chatJID (latestMsg :: rest) st1) as H1.
  simpl in H1. subst st1. simpl in H1.
  rewrite message_writes_app in H1. unfold message_writes at 2 in H1. simpl in H1.
  simpl. lia.
Qed.

Lemma sync_conversations_count conversations st :
  let st' := (sync_conversations client conversations st).1 in
  (syncedCount st' + message_writes (sync_writes st)
   = syncedCount st + message_writes (sync_writes st'))%nat.
Proof.
  revert st. induction conversations as [|c conversations IH]; intros st; simpl; [done|].
  pose proof (sync_conversation_count st c) as H1.
  destruct (sync_conversation client st c) as [st1 []]; simpl in *.
  - specialize (IH st1). simpl in IH. lia.
  - done.
Qed.

Lemma store_history_messages_app jid chatJID before after st :
  store_history_messages client jid chatJID (before ++ after) st
  = match store_history_messages client jid chatJID before st with
    | (st', Continue) => store_history_messages client jid chatJID after st'
    | (st', Panic) => (st', Panic)
    end.
Proof.
  revert st. induction before as [|msg before IH]; intros st; simpl; [done|].
  destruct (store_history_message client jid chatJID st msg) as [st' []]; [apply IH|done].
Qed.

Lemma store_history_message_skips jid chatJID st msg :
  skipped_envelope client jid msg →
  store_history_message client jid chatJID st msg = (st, Continue).
Proof.
  unfold skipped_envelope, store_history_message.
  destruct (msg ≫= HistMessage) as [m|]; [|done].
  intros [Hc|[Hts [[sender isFromMe] Hs]]].
  - by rewrite decide_True.
  - case_decide; [done|]. rewrite Hs. by rewrite decide_True.
Qed.

Lemma store_history_message_panics jid chatJID st msg :
  StoreID client = None → own_text_envelope msg →
  store_history_message client jid chatJID st msg = (st, Panic).
Proof.
  intros Hid (m & key & Hm & Hc & Hkey & Hme).
  unfold store_history_message. rewrite Hm. rewrite decide_False by done.
  unfold history_sender. rewrite Hkey, Hme, Hid. simpl.
  by destruct (Participant key).
Qed.

Lemma store_history_messages_panic jid chatJID msgs st msg :
  StoreID client = None → msg ∈ msgs → own_text_envelope msg →
  (store_history_messages client jid chatJID msgs st).2 = Panic.
Proof.
  intros Hid Hin Hown. revert st.
  induction msgs as [|msg' msgs IH]; intros st; [by apply elem_of_nil in Hin|].
  simpl. destruct (store_history_message client jid chatJID st msg') as [st1 f1] eqn:H1.
  destruct f1; [|done].
  apply elem_of_cons in Hin as [->|Hin]; [|by apply IH].
  rewrite store_history_message_panics in H1 by done. congruence.
Qed.
End sync_more.

(** X19. The counter [handleHistorySync] reports is the number of message
    rows it wrote: [syncedCount] equals the number of message writes in the
    log of the call, also when the call ends in a panic. *)
Theorem syncedCount_counts_message_writes
    (client : Client) (store : MessageStore) (historySync : HistorySync) :
  let st := (handleHistorySync client store historySync).1 in
  syncedCount st = message_writes (sync_writes st).
Proof.
  intros st. subst st. unfold handleHistorySync.
  pose proof (sync_conversations_count client (Conversations historySync)
                                       (mkSync store [] 0)) as H.
  simpl in H. unfold message_writes at 1 in H. simpl in H. lia.
Qed.

(** X20. A conversation without ID, with an ID that does not parse, or
    without messages is passed over: it changes nothing, and the batch
    gives the result it gives without it. *)
Theorem handleHistorySync_skips_unusable_conversation
    (client : Client) (store : MessageStore) (st : SyncState)
    (before after : list Conversation_) (conversation : Conversation_) :
  unusable_conversation client conversation →
  sync_conversation client st conversation = (st, Continue) ∧
  handleHistorySync client store (mkHistorySync (before ++ conversation :: after))
  = handleHistorySync client store (mkHistorySync (before ++ after)).
Proof.
  intros Hbad.
  assert (∀ st, sync_conversation client st conversation = (st, Continue)) as Hskip.
  { intros st0. unfold unusable_conversation in Hbad. unfold sync_conversation.
    destruct (ConvID conversation) as [chatJID|]; [|done].
    destruct (ParseJID client chatJID) as [jid|]; [|done].
    by rewrite Hbad. }
  split; [apply Hskip|].
  unfold handleHistorySync. simpl. rewrite !sync_conversations_app.
  destruct (sync_conversations client before _) as [st' []]; [|done].
  simpl. by rewrite Hskip.
Qed.

(** X21. An envelope that is nil, has no text or has no timestamp is
    passed over without a trace: the loop over the messages of a
    conversation gives the result it gives without that envelope. *)
Theorem store_history_messages_skips_envelope
    (client : Client) (jid : JID.t) (chatJID : string) (st : SyncState)
    (before after : list (option HistorySyncMsg)) (msg : option HistorySyncMsg) :
  skipped_envelope client jid msg →
  store_history_messages client jid chatJID (before ++ msg :: after) st
  = store_history_messages client jid chatJID (before ++ after) st.
Proof.
  intros Hskip. rewrite !store_history_messages_app.
  destruct (store_history_messages client jid chatJID before st) as [st' []]; [|done].
  simpl. by rewrite store_history_message_skips.
Qed.

(** X22. A batch handled by a session that is not logged in stops at the
    first conversation that holds a text message sent by the account
    itself: [client.Store.ID] is nil there.  The call ends in a panic, and
    the conversations after that one are never looked at. *)
Theorem handleHistorySync_panics_when_not_logged_in
    (client : Client) (store : MessageStore)
    (before after : list Conversation_) (conversation : Conversation_)
    (msg : option HistorySyncMsg) :
  StoreID client = None →
  processed_conversation client conversation →
  msg ∈ Messages conversation → own_text_envelope msg →
  (handleHistorySync client store
     (mkHistorySync (before ++ conversation :: after))).2 = Panic ∧
  handleHistorySync client store (mkHistorySync (before ++ conversation :: after))
  = handleHistorySync client store (mkHistorySync (before ++ [conversation])).
Proof.
  intros Hid (chatJID & jid & Hcid & Hjid & Hne & Hts) Hin Hown.
  assert (∀ st, (sync_conversation client st conversation).2 = Panic) as Hpanic.
  { intros st. unfold sync_conversation. rewrite Hcid, Hjid.
    unfold latest_without_timestamp in Hts.
    destruct (Messages conversation) as [|latestMsg rest] eqn:Hmsgs; [done|].
    destruct (latestMsg ≫= HistMessage) as [latest|]; [|done].
    rewrite decide_False by done.
    destruct (StoreChat _ _ _ _) as [store1 err1].
    by apply (store_history_messages_panic client jid chatJID _ _ msg). }
  unfold handleHistorySync. simpl. rewrite !sync_conversations_app.
  destruct (sync_conversations client before _) as [st' []]; [|done].
  simpl. specialize (Hpanic st').
  destruct (sync_conversation client st' conversation) as [st1 f1].
  simpl in Hpanic. by subst f1.
Qed.

(** * [StoreChat] seen through [GetChats] *)

Section chats_map.
Context (parse : Time → option Time).

(** Reading the map at an address gives the time of the last row scanned
    for it. *)
Lemma scan_chats_lookup (tbl : list ChatRow.t) (k : string) :
  scan_chats parse (chat_columns <$> tbl) !! k
  = (λ r, default zero_time (parse (ChatRow.last_message_time r)))
      <$> last (select_chat k tbl).
Proof.
  unfold scan_chats, select_chat.
  induction tbl as [|r tbl IH] using rev_ind; [done|].
  rewrite fmap_app. change (chat_columns <$> [r]) with [chat_columns r].
  rewrite foldl_snoc, filter_app. simpl.
  destruct (decide (ChatRow.jid r = k)) as [<-|Hne].
  - rewrite lookup_insert_eq. rewrite filter_cons_True by done.
    by rewrite filter_nil, last_snoc.
  - rewrite lookup_insert_ne by done. rewrite IH.
    rewrite filter_cons_False by done. by rewrite filter_nil, app_nil_r.
Qed.

Lemma GetChats_unsorted (store : MessageStore) :
  NoDup (ChatRow.jid <$> chats store) →
  GetChats parse store = scan_chats parse (chat_columns <$> chats store).
Proof.
  intros Hkeys. unfold GetChats, query_chats. fold chat_columns. symmetry.
  apply scan_chats_Permutation; [done|]. symmetry. apply merge_sort_Permutation.
Qed.
End chats_map.

(** X23. [StoreChat] followed by [GetChats]: on a chats table with unique
    addresses, the map returned after [StoreChat] is the map returned
    before with the address set to the new time, all other entries as they
    were. *)
Theorem GetChats_after_StoreChat
    (parse : Time → option Time) (store : MessageStore) (jid name : string)
    (lastMessageTime : Time) :
  NoDup (ChatRow.jid <$> chats store) →
  GetChats parse (StoreChat store jid name lastMessageTime).1
  = <[jid := default zero_time (parse lastMessageTime)]> (GetChats parse store).
Proof.
  intros Hkeys.
  rewrite (GetChats_unsorted parse store) by done.
  rewrite GetChats_unsorted
    by (apply (keys_replace_NoDup ChatRow.jid (ChatRow.mk jid name lastMessageTime));
        done).
  apply map_eq. intros k. rewrite scan_chats_lookup. simpl.
  destruct (decide (jid = k)) as [<-|Hne].
  - rewrite lookup_insert_eq.
    by rewrite (select_chat_replace_chat (ChatRow.mk jid name lastMessageTime)).
  - rewrite lookup_insert_ne by done. rewrite scan_chats_lookup.
    by rewrite select_chat_replace_chat_ne.
Qed.

(** * Replaying a history batch *)

Section replace_runs.
Context {A K : Type} `{EqDecision K} (key : A → K).
Implicit Types (tbl rows : list A).

Lemma filter_none (P : A → Prop) `{∀ x, Decision (P x)} tbl :
  (∀ x, x ∈ tbl → ¬ P x) → filter P tbl = [].
Proof.
  induction tbl as [|x tbl IH]; [done|]. intros Hno.
  rewrite filter_cons_False by (apply Hno, list_elem_of_here).
  apply IH. intros y Hy. by apply Hno, list_elem_of_further.
Qed.

(** A run of replaces keeps the rows under other keys in place and sends
    the rows it writes to the end. *)
Lemma foldl_replace_split rows tbl :
  foldl (λ t r, filter (λ x, key x ≠ key r) t ++ [r]) tbl rows
  = filter (λ x, key x ∉ key <$> rows) tbl ++ foldl (λ t r, filter (λ x, key x ≠ key r) t ++ [r]) [] rows.
Proof.
  revert tbl. induction rows as [|r rows IH]; intros tbl.
  { simpl. rewrite app_nil_r. symmetry. induction tbl as [|x tbl IHt]; [done|].
    rewrite filter_cons_True by (by intros ?%elem_of_nil). by rewrite IHt. }
  simpl. rewrite IH. rewrite (IH [r]). rewrite filter_app, app_assoc. f_equal.
  f_equal. rewrite list_filter_filter. apply list_filter_iff.
  intros x. rewrite not_elem_of_cons. tauto.
Qed.

Lemma foldl_replace_keys rows x :
  x ∈ foldl (λ t r, filter (λ x, key x ≠ key r) t ++ [r]) [] rows → key x ∈ key <$> rows.
Proof.
  revert x. induction rows as [|r rows IH] using rev_ind; intros x.
  { by intros ?%elem_of_nil. }
  rewrite foldl_snoc, fmap_app, !elem_of_app. intros [Hx|Hx].
  - left. apply IH. by apply list_elem_of_filter in Hx as [_ ?].
  - right. apply list_elem_of_singleton in Hx as ->. simpl. apply list_elem_of_here.
Qed.

(** Writing the same rows a second time changes nothing. *)
Lemma foldl_replace_twice rows tbl :
  foldl (λ t r, filter (λ x, key x ≠ key r) t ++ [r]) (foldl (λ t r, filter (λ x, key x ≠ key r) t ++ [r]) tbl rows) rows = foldl (λ t r, filter (λ x, key x ≠ key r) t ++ [r]) tbl rows.
Proof.
  rewrite (foldl_replace_split rows (foldl (λ t r, filter (λ x, key x ≠ key r) t ++ [r]) tbl rows)).
  rewrite (foldl_replace_split rows tbl) at 1.
  rewrite filter_app.
  rewrite (filter_none _ (foldl (λ t r, filter (λ x, key x ≠ key r) t ++ [r]) [] rows))
    by (intros x Hx Hno; by apply Hno, foldl_replace_keys).
  rewrite app_nil_r.
  rewrite list_filter_filter.
  rewrite (list_filter_iff _ (λ x, key x ∉ key <$> rows)) by (intros x; tauto).
  symmetry. apply foldl_replace_split.
Qed.
End replace_runs.

Section replay.
Context (client : Client) (me : JID.t).
Hypothesis logged_in : StoreID client = Some me.

Lemma foldl_sync_row_store (rows : list MessageRow.t) (st : SyncState) :
  sync_store (foldl sync_row st rows)
  = mkStore (chats (sync_store st))
            (foldl (λ tbl r, replace_message r tbl) (messages (sync_store st)) rows) ∧
  syncedCount (foldl sync_row st rows) = (syncedCount st + length rows)%nat.
Proof.
  revert st. induction rows as [|r rows IH]; intros st; simpl.
  - split; [by destruct (sync_store st)|lia].
  - destruct (IH (sync_row st r)) as [-> ->]. simpl. split; [done|lia].
Qed.

(** The outer loop body of a logged-in session, on the database alone. *)
Lemma sync_conversation_store (st : SyncState) (conversation : Conversation_) :
  ∃ st', sync_conversation client st conversation = (st', Continue) ∧
         sync_store st' = conversation_store client (sync_store st) conversation ∧
         syncedCount st'
         = (syncedCount st + length (conversation_rows client conversation))%nat.
Proof.
  unfold sync_conversation, conversation_store, conversation_chats, conversation_rows,
    conversation_plan.
  destruct (ConvID conversation) as [chatJID|];
    [|exists st; simpl; split; [done|]; split; [by destruct (sync_store st)|lia]].
  destruct (ParseJID client chatJID) as [jid|];
    [|exists st; simpl; split; [done|]; split; [by destruct (sync_store st)|lia]].
  destruct (Messages conversation) as [|latestMsg rest] eqn:Hmsgs;
    [exists st; simpl; split; [done|]; split; [by destruct (sync_store st)|lia]|].
  destruct (latestMsg ≫= HistMessage) as [latest|];
    [|exists st; simpl; split; [done|]; split; [by destruct (sync_store st)|lia]].
  case_decide as Hts;
    [exists st; simpl; split; [done|]; split; [by destruct (sync_store st)|lia]|].
  unfold StoreChat, chat_write. cbv beta iota zeta.
  rewrite (store_history_messages_rows client me jid chatJID logged_in)
    by (simpl; apply chat_exists_replace_chat; by left).
  match goal with
  | |- context [foldl sync_row ?s ?rows] =>
      destruct (foldl_sync_row_store rows s) as [Hstore Hcount]
  end.
  eexists. split; [done|]. by rewrite Hstore, Hcount.
Qed.

Lemma sync_conversations_store (conversations : list Conversation_) (st : SyncState) :
  ∃ st', sync_conversations client conversations st = (st', Continue) ∧
         sync_store st' = foldl (conversation_store client) (sync_store st) conversations ∧
         syncedCount st'
         = (syncedCount st
            + length (conversations ≫= conversation_rows client))%nat.
Proof.
  revert st. induction conversations as [|c conversations IH]; intros st.
  { exists st. split; [done|]. split; [done|]. simpl. by rewrite Nat.add_0_r. }
  change ((c :: conversations) ≫= conversation_rows client)
    with (conversation_rows client c ++ (conversations ≫= conversation_rows client)).
  cbn [sync_conversations foldl].
  destruct (sync_conversation_store st c) as (st1 & -> & Hs1 & Hc1).
  destruct (IH st1) as (st' & -> & Hs' & Hc').
  exists st'. split; [done|]. rewrite Hs', Hs1, Hc', Hc1, length_app.
  split; [done|lia].
Qed.

(** The two tables of a batch go their own ways: the messages do not
    depend on the chats. *)
Lemma foldl_conversation_store (conversations : list Conversation_) (store : MessageStore) :
  foldl (conversation_store client) store conversations
  = mkStore (foldl (conversation_chats client) (chats store) conversations)
            (foldl (λ tbl r, replace_message r tbl) (messages store)
                   (conversations ≫= conversation_rows client)).
Proof.
  revert store. induction conversations as [|c conversations IH]; intros store.
  - by destruct store.
  - change ((c :: conversations) ≫= conversation_rows client)
      with (conversation_rows client c ++ (conversations ≫= conversation_rows client)).
    cbn [foldl]. rewrite IH. unfold conversation_store. cbn [chats messages].
    by rewrite foldl_app.
Qed.
End replay.

Section chat_names_replay.
Context (client : Client).
Implicit Types (tbl : list ChatRow.t) (conv : Conversation_) (j : string).

Lemma omap_ext_elem_of {A B : Type} (f g : A → option B) (l : list A) :
  (∀ x, x ∈ l → f x = g x) → omap f l = omap g l.
Proof.
  induction l as [|x l IH]; [done|]. intros Hfg. csimpl.
  rewrite (Hfg x (list_elem_of_here _ _)).
  rewrite IH by (intros y Hy; by apply Hfg, list_elem_of_further). done.
Qed.

(** [GetChatName] reads the database through one query only. *)
Lemma GetChatName_query (s1 s2 : MessageStore) (jid : JID.t) j
    (conversation : option Conversation_) (sender : string) :
  query_chat_name s1 j = query_chat_name s2 j →
  GetChatName client s1 jid j conversation sender
  = GetChatName client s2 jid j conversation sender.
Proof. intros Hq. unfold GetChatName. by rewrite Hq. Qed.

Lemma determine_group_nonempty (jid : JID.t) (conversation : option Conversation_)
    (sender : string) :
  JID.Server jid = "g.us" →
  (determine_chat_name client jid conversation sender).1 ≠ "".
Proof.
  intros Hg. rewrite determine_chat_name_group by done.
  apply first_nonempty_nonempty. exists ("Group " +:+ JID.User jid).
  split; [|done]. rewrite elem_of_app. right.
  apply list_elem_of_further, list_elem_of_here.
Qed.

Lemma determine_contact_any_conversation (jid : JID.t)
    (conversation conversation' : option Conversation_) (sender : string) :
  JID.Server jid ≠ "g.us" →
  determine_chat_name client jid conversation sender
  = determine_chat_name client jid conversation' sender.
Proof.
  intros Hg. unfold determine_chat_name.
  by destruct (decide (JID.Server jid = "g.us")).
Qed.

(** The name stored for a chat, once one conversation resolves to it, is
    what every conversation of that chat resolves to. *)
Lemma GetChatName_same_chat (s : MessageStore) (jid : JID.t) j
    (conversation conversation' : option Conversation_) (sender name : string) :
  query_chat_name s j = Some name →
  (GetChatName client s jid j conversation' sender).1 = name →
  (GetChatName client s jid j conversation sender).1 = name.
Proof.
  unfold GetChatName. intros ->. case_decide as Hn; [done|].
  intros Hd. destruct (decide (JID.Server jid = "g.us")) as [Hg|Hg].
  - exfalso. apply (determine_group_nonempty jid conversation' sender Hg). congruence.
  - by rewrite (determine_contact_any_conversation jid conversation conversation').
Qed.

Lemma query_replace_chat_eq (c : ChatRow.t) tbl :
  query_chat_name (mkStore (replace_chat c tbl) []) (ChatRow.jid c)
  = Some (ChatRow.name c).
Proof. unfold query_chat_name. simpl. by rewrite select_chat_replace_chat. Qed.

Lemma query_replace_chat_ne (c : ChatRow.t) tbl j :
  ChatRow.jid c ≠ j →
  query_chat_name (mkStore (replace_chat c tbl) []) j
  = query_chat_name (mkStore tbl []) j.
Proof.
  intros Hj. unfold query_chat_name. simpl. by rewrite select_chat_replace_chat_ne.
Qed.

Lemma conversation_plan_jid conv j (jid : JID.t) (ts : Time) :
  conversation_plan client conv = Some (j, jid, ts) → ParseJID client j = Ok jid.
Proof.
  unfold conversation_plan.
  destruct (ConvID conv) as [chatJID|]; [|done].
  destruct (ParseJID client chatJID) as [jid'|] eqn:Hp; [|done].
  destruct (Messages conv) as [|latestMsg rest]; [done|].
  destruct (latestMsg ≫= HistMessage) as [latest|]; [|done].
  case_decide; [done|]. by intros [= <- <- _].
Qed.

(** After a pass over a batch the names are settled, and the table is the
    one obtained by writing each conversation's row under its settled
    name. *)
Lemma conversation_chats_settle (conversations : list Conversation_) tbl :
  let tbl' := foldl (conversation_chats client) tbl conversations in
  tbl' = foldl (λ t r, replace_chat r t) tbl
               (omap (planned_chat_row client tbl') conversations) ∧
  settled_names client tbl' conversations.
Proof.
  induction conversations as [|conv conversations IH] using rev_ind.
  { split; [done|]. by intros conv j jid ts ?%elem_of_nil. }
  destruct IH as [Htbl Hsettled].
  rewrite foldl_snoc. set (tbl0 := foldl (conversation_chats client) tbl conversations) in *.
  intros tbl'. subst tbl'. rewrite omap_app, foldl_app.
  set (tbl1 := conversation_chats client tbl0 conv).
  destruct (conversation_plan client conv) as [[[j jid] ts]|] eqn:Hplan.
  2:{ assert (tbl1 = tbl0) as -> by (unfold tbl1, conversation_chats; by rewrite Hplan).
      assert (omap (planned_chat_row client tbl0) [conv] = []) as ->
        by (csimpl; unfold planned_chat_row; by rewrite Hplan).
      split; [done|]. intros conv' j jid ts [Hin|Hin]%elem_of_app Hplan'.
      - by apply (Hsettled conv' j jid ts).
      - apply list_elem_of_singleton in Hin as ->. congruence. }
  set (name := (GetChatName client (mkStore tbl0 []) jid j (Some conv) "").1).
  set (row := ChatRow.mk j name ts).
  assert (tbl1 = replace_chat row tbl0) as Htbl1
    by (unfold tbl1, conversation_chats; by rewrite Hplan).
  clearbody tbl1. subst tbl1.
  (* names of the conversations before this one are not changed by it *)
  assert (∀ conv' j' jid' ts', conv' ∈ conversations →
            conversation_plan client conv' = Some (j', jid', ts') →
            query_chat_name (mkStore (replace_chat row tbl0) []) j'
            = query_chat_name (mkStore tbl0 []) j') as Hsame.
  { intros conv' j' jid' ts' Hin Hplan'.
    destruct (decide (j = j')) as [<-|Hne]; [|by apply query_replace_chat_ne].
    rewrite (query_replace_chat_eq row). simpl.
    pose proof (Hsettled conv' j jid' ts' Hin Hplan') as Hq.
    assert (jid' = jid) as ->.
    { apply conversation_plan_jid in Hplan, Hplan'. congruence. }
    rewrite Hq. f_equal. subst name.
    by apply (GetChatName_same_chat _ _ _ (Some conv) (Some conv') "" _ Hq). }
  assert (omap (planned_chat_row client (replace_chat row tbl0)) [conv] = [row]) as ->.
  { csimpl. unfold planned_chat_row. rewrite Hplan. simpl.
    unfold stored_name. by rewrite (query_replace_chat_eq row). }
  split.
  - simpl. f_equal. rewrite Htbl at 1. f_equal.
    apply omap_ext_elem_of. intros conv' Hin. unfold planned_chat_row.
    destruct (conversation_plan client conv') as [[[j' jid'] ts']|] eqn:Hplan'; [|done].
    simpl. unfold stored_name. by rewrite (Hsame conv' j' jid' ts').
  - intros conv' j' jid' ts' [Hin|Hin]%elem_of_app Hplan'.
    + rewrite (Hsame conv' j' jid' ts') by done.
      rewrite (GetChatName_query _ (mkStore tbl0 []))
        by (by apply (Hsame conv' j' jid' ts')).
      by apply (Hsettled conv' j' jid' ts').
    + apply list_elem_of_singleton in Hin as ->.
      rewrite Hplan in Hplan'. injection Hplan' as <- <- <-.
      rewrite (query_replace_chat_eq row). simpl. f_equal. symmetry.
      apply (GetChatName_stable client (mkStore tbl0 [])).
      apply (query_replace_chat_eq row).
Qed.

(** On a table with settled names a pass writes each conversation's row
    under the name the table holds. *)
Lemma conversation_chats_settled (names : list ChatRow.t)
    (conversations : list Conversation_) tbl :
  (∀ conv j jid ts, conv ∈ conversations →
     conversation_plan client conv = Some (j, jid, ts) →
     query_chat_name (mkStore tbl []) j = Some (stored_name names j) ∧
     (GetChatName client (mkStore tbl []) jid j (Some conv) "").1 = stored_name names j) →
  foldl (conversation_chats client) tbl conversations
  = foldl (λ t r, replace_chat r t) tbl
          (omap (planned_chat_row client names) conversations).
Proof.
  revert tbl. induction conversations as [|conv conversations IH]; intros tbl Hs; [done|].
  csimpl. unfold conversation_chats at 2, planned_chat_row at 1.
  destruct (conversation_plan client conv) as [[[j jid] ts]|] eqn:Hplan; simpl.
  2:{ apply IH. intros conv' j' jid' ts' Hin. by apply Hs, list_elem_of_further. }
  destruct (Hs conv j jid ts (list_elem_of_here _ _) Hplan) as [Hq Hn].
  rewrite Hn. set (row := ChatRow.mk j (stored_name names j) ts).
  apply IH. intros conv' j' jid' ts' Hin Hplan'.
  destruct (Hs conv' j' jid' ts' (list_elem_of_further _ _ _ Hin) Hplan') as [Hq' Hn'].
  assert (query_chat_name (mkStore (replace_chat row tbl) []) j'
          = query_chat_name (mkStore tbl []) j') as Hsame.
  { destruct (decide (j = j')) as [<-|Hne]; [|by apply query_replace_chat_ne].
    by rewrite (query_replace_chat_eq row), Hq'. }
  split; [by rewrite Hsame|].
  by rewrite (GetChatName_query _ (mkStore tbl [])).
Qed.

(** A second pass over the same batch leaves the chats table as the first
    pass made it. *)
Lemma conversation_chats_twice (conversations : list Conversation_) tbl :
  let tbl' := foldl (conversation_chats client) tbl conversations in
  foldl (conversation_chats client) tbl' conversations = tbl'.
Proof.
  intros tbl'. destruct (conversation_chats_settle conversations tbl) as [Htbl Hsettled].
  fold tbl' in Htbl, Hsettled.
  rewrite (conversation_chats_settled tbl').
  - set (rows := omap (planned_chat_row client tbl') conversations) in *.
    pose proof (foldl_replace_twice ChatRow.jid rows tbl) as Htwice.
    change (foldl (λ t r, replace_chat r t) (foldl (λ t r, replace_chat r t) tbl rows) rows
            = foldl (λ t r, replace_chat r t) tbl rows) in Htwice.
    by rewrite <- Htbl in Htwice.
  - intros conv j jid ts Hin Hplan. pose proof (Hsettled conv j jid ts Hin Hplan) as Hq.
    unfold stored_name. rewrite Hq. done.
Qed.
End chat_names_replay.

(** X24. Replaying a batch: for a session that is logged in, handling the
    same history sync a second time leaves the database exactly as the
    first time left it, row for row and in the same order, and reports the
    same count; neither call panics. *)
Theorem handleHistorySync_replay
    (client : Client) (me : JID.t) (store : MessageStore) (historySync : HistorySync) :
  StoreID client = Some me →
  let once := handleHistorySync client store historySync in
  let twice := handleHistorySync client (sync_store once.1) historySync in
  sync_store twice.1 = sync_store once.1 ∧
  syncedCount twice.1 = syncedCount once.1 ∧
  once.2 = Continue ∧ twice.2 = Continue.
Proof.
  intros Hme once twice. subst once twice. unfold handleHistorySync.
  set (cs := Conversations historySync).
  destruct (sync_conversations_store client me Hme cs (mkSync store [] 0))
    as (st1 & -> & Hs1 & Hc1).
  simpl in Hs1, Hc1. cbn [fst snd].
  destruct (sync_conversations_store client me Hme cs (mkSync (sync_store st1) [] 0))
    as (st2 & -> & Hs2 & Hc2).
  simpl in Hs2, Hc2. cbn [fst snd].
  split; [|split; [congruence|done]].
  rewrite Hs2, Hs1. rewrite (foldl_conversation_store client cs store).
  rewrite foldl_conversation_store. cbn [chats messages]. f_equal.
  - apply conversation_chats_twice.
  - set (rows := cs ≫= conversation_rows client).
    exact (foldl_replace_twice MessageRow.key rows (messages store)).
Qed.

(** * [handleEvent] in a known chat *)

(** X25. What [handleEvent] stores: for a message with text in a chat that
    has a row, the key [(ID, chat)] selects one row, with the sender's full
    address (where [handleMessage] stores the user part), the extracted
    text and the media kind read off the payload.  The chats table is left
    as it is, so the chat's last message time is not moved. *)
Theorem handleEvent_then_select (file : MessageStore) (v : EventsMessage) :
  let chatJID := JID.String (Chat (Info v)) in
  let content := extractTextContent (Message v) in
  let mediaType :=
    if GetImageMessage (Message v) then "image"
    else if GetVideoMessage (Message v) then "video"
    else if GetAudioMessage (Message v) then "audio"
    else if GetDocumentMessage (Message v) then "document"
    else "text" in
  let after := (handleEvent file (EvtMessage v)).1 in
  chat_exists chatJID file → content ≠ "" →
  select_message (ID (Info v), chatJID) (messages after)
  = [message_row (ID (Info v)) chatJID (JID.String (Sender (Info v))) content
                 (Timestamp (Info v)) (IsFromMe (Info v)) mediaType] ∧
  chats after = chats file ∧
  (handleEvent file (EvtMessage v)).2 = [WriteMessage (ID (Info v)) chatJID].
Proof.
  intros chatJID content mediaType after Hj Hc. subst after.
  unfold handleEvent. fold chatJID content mediaType. simpl.
  rewrite StoreMessage_written by done. simpl. split; [|split; [done|]].
  - apply (select_replace_message
             (message_row (ID (Info v)) chatJID (JID.String (Sender (Info v))) content
                          (Timestamp (Info v)) (IsFromMe (Info v)) mediaType)).
  - unfold message_write. by rewrite decide_False.
Qed.

(** * Instances *)

(** ["buy 20"] delivered after ["buy 10"] under the same key. *)
Lemma StoreMessage_last_write_wins_witness :
  let first := StoreMessage sample_store "m1" "123@g.us" "555" "buy 10" 7 false "text" in
  "buy 20" ≠ "" ∧
  StoreMessage first.1 "m1" "123@g.us" "555" "buy 20" 8 false "text"
  = StoreMessage sample_store "m1" "123@g.us" "555" "buy 20" 8 false "text".
Proof.
  intros first. assert ("buy 20" ≠ "") as Hc by discriminate.
  split; [exact Hc|].
  exact (proj1 (StoreMessage_last_write_wins sample_store "m1" "123@g.us"
                  "555" "buy 10" "555" "buy 20" 7 8 false false "text" "text") Hc).
Defined.

(** Storing ["m1"] leaves ["m0"] alone. *)
Lemma StoreMessage_frame_witness :
  let after := (StoreMessage sample_store "m1" "123@g.us" "555" "buy 10" 7 false "text").1 in
  ("m0", "123@g.us") ≠ ("m1", "123@g.us") ∧
  select_message ("m0", "123@g.us") (messages after)
  = [MessageRow.mk "m0" "123@g.us" "555" "hold" 4 false "text"].
Proof.
  intros after. assert (("m0", "123@g.us") ≠ ("m1", "123@g.us")) as Hk by discriminate.
  split; [exact Hk|].
  exact (proj1 (StoreMessage_frame sample_store "m1" "123@g.us" "555" "buy 10" 7
                  false "text" ("m0", "123@g.us") Hk)).
Defined.

Lemma sample_store_ok : store_ok sample_store.
Proof.
  split; simpl.
  - apply NoDup_singleton.
  - apply NoDup_singleton.
  - intros r ->%list_elem_of_singleton. apply list_elem_of_here.
  - by intros r ->%list_elem_of_singleton.
Qed.

(** The sample database stays well-formed under a call of [handleMessage]. *)
Lemma store_ok_along_executions_witness :
  store_ok sample_store ∧
  store_ok (step sample_store
                 (CallHandleMessage sample_client (text_event "m1" "buy 10" 7))).1.
Proof.
  split; [exact sample_store_ok|].
  exact (proj1 store_ok_along_executions sample_store
               (CallHandleMessage sample_client (text_event "m1" "buy 10" 7))
               sample_store_ok).
Defined.

(** The chat and the message of the sample database survive an event and a
    history batch. *)
Lemma rows_are_never_deleted_witness :
  let calls := [CallHandleEvent (EvtMessage (text_event "m1" "buy 10" 7));
                CallHandleHistorySync sample_client
                  (mkHistorySync [timed_conversation])] in
  chat_exists "123@g.us" (run calls sample_store []).1 ∧
  ("m0", "123@g.us") ∈ MessageRow.key <$> messages (run calls sample_store []).1.
Proof.
  intros calls. destruct (rows_are_never_deleted calls sample_store []) as [Hchat Hmsg].
  split.
  - apply Hchat. apply list_elem_of_here.
  - apply Hmsg. apply list_elem_of_here.
Defined.

(** On the fresh database the registered handler stores nothing, not even
    a text message. *)
Lemma handleEvent_needs_chat_row_witness :
  ¬ chat_exists "123@g.us" empty_store ∧
  handleEvent empty_store (EvtMessage (text_event "m1" "buy 10" 7)) = (empty_store, []) ∧
  run [CallHandleEvent (EvtMessage (text_event "m1" "buy 10" 7));
       CallHandleEvent (EvtMessage (text_event "m2" "sell 5" 8))] empty_store []
  = (empty_store, []).
Proof.
  assert (¬ chat_exists "123@g.us" empty_store) as Hj by (by intros ?%elem_of_nil).
  destruct handleEvent_needs_chat_row as [Hone Hrun].
  split; [exact Hj|]. split.
  - exact (Hone empty_store (text_event "m1" "buy 10" 7) Hj).
  - apply Hrun. repeat constructor; by eexists.
Defined.

(** Without limit [GetMessages] returns the one message of the chat. *)
Lemma GetMessages_result_witness :
  -1 < 0 ∧
  query_messages "123@g.us" (-1) (messages sample_store)
  ≡ₚ chat_messages "123@g.us" (messages sample_store) ∧
  GetMessages Some sample_store "123@g.us" (-1)
  = [Message.mk 4 "555" "hold" false "text"].
Proof.
  assert (-1 < 0) as Hl by lia.
  split; [exact Hl|]. split; [|reflexivity].
  destruct (GetMessages_result Some sample_store "123@g.us" (-1))
    as (_ & _ & _ & _ & Hall).
  apply Hall. by left.
Defined.

(** ["buy 10"] at time 9 comes before ["hold"] at time 4. *)
Lemma GetMessages_latest_first_witness :
  let after := (StoreMessage sample_store "m1" "123@g.us" "555" "buy 10" 9 false "text").1 in
  head (GetMessages Some after "123@g.us" 1)
  = Some (Message.mk 9 "555" "buy 10" false "text").
Proof.
  intros after.
  apply (GetMessages_latest_first Some sample_store "m1" "123@g.us" "555" "buy 10" 9
           false "text" 1).
  - discriminate.
  - apply list_elem_of_here.
  - lia.
  - intros r ->%list_elem_of_singleton _. simpl. lia.
Defined.

(** A message in ["123@g.us"] leaves the chat ["456@s.whatsapp.net"] and
    the message ["m0"] as they are. *)
Lemma handleMessage_frame_witness :
  let after := (handleMessage sample_client sample_store (text_event "m1" "buy 10" 7)).1 in
  select_chat "456@s.whatsapp.net" (chats after) = [] ∧
  select_message ("m0", "123@g.us") (messages after)
  = [MessageRow.mk "m0" "123@g.us" "555" "hold" 4 false "text"].
Proof.
  intros after.
  destruct (handleMessage_frame sample_client sample_store (text_event "m1" "buy 10" 7)
              "456@s.whatsapp.net" ("m0", "123@g.us")) as [Hchat Hmsg].
  split.
  - apply Hchat. discriminate.
  - apply Hmsg. discriminate.
Defined.

(** An image alone has no text; a conversation text is returned as it is. *)
Lemma text_extraction_agrees_witness :
  extractTextContent (Some (mkProto None None true false false false)) = "" ∧
  extractTextContent (Some (text_message "buy 10")) = "buy 10".
Proof.
  destruct text_extraction_agrees as (_ & Hnone & Htext).
  split.
  - apply Hnone; reflexivity.
  - apply Htext; [reflexivity|discriminate].
Defined.

(** The group ["123@g.us"] with the display name ["Desk"] is named without
    asking the session. *)
Lemma GetChatName_lookups_witness :
  (GetChatName sample_client empty_store desk "123@g.us"
               (Some untimed_conversation) "").2 = [].
Proof.
  destruct (GetChatName_lookups sample_client empty_store desk "123@g.us"
              (Some untimed_conversation) "") as (_ & _ & Hhint).
  apply Hhint; [reflexivity|discriminate].
Defined.

(** The bare number ["555"] is sent to as [555@s.whatsapp.net]; a session
    that is not connected sends nothing. *)
Lemma sendWhatsAppMessage_outcome_witness :
  (sendWhatsAppMessage sample_client "555" "hi").2
  = [CallSendMessage (JID.mk "555" "s.whatsapp.net") "hi"] ∧
  sendWhatsAppMessage offline_client "555" "hi"
  = ((false, "Not connected to WhatsApp"), []).
Proof.
  split.
  - destruct (sendWhatsAppMessage_outcome sample_client "555" "hi") as (_ & _ & _ & Hbare).
    apply Hbare; reflexivity.
  - destruct (sendWhatsAppMessage_outcome offline_client "555" "hi") as (_ & _ & Hoff & _).
    apply Hoff. reflexivity.
Defined.

(** A GET is answered 405. *)
Lemma send_handler_status_witness :
  let r := mkRequest "GET" (Some (SendMessageRequest.mk "555" "hi")) in
  (send_handler sample_client r).1 = http_Error "Method not allowed" 405 ∧
  (send_handler sample_client r).2 = [].
Proof.
  intros r.
  destruct (send_handler_status sample_client r) as (_ & _ & _ & Hget).
  apply Hget. discriminate.
Defined.

(** The scenario of a send while disconnected. *)
Lemma send_handler_not_connected_witness :
  send_handler offline_client
               (mkRequest "POST" (Some (SendMessageRequest.mk "555" "hi")))
  = (mkResponse 500 (Json (SendMessageResponse.mk false "Not connected to WhatsApp")),
     [Delegated "555" "hi"]).
Proof.
  apply (send_handler_not_connected offline_client _ "555" "hi");
    try reflexivity; discriminate.
Defined.

(** A tool call with empty recipient and message is acknowledged as sent. *)
Lemma handleMCPCall_acknowledges_witness :
  handleMCPCall
    (mkMCPRequest "POST"
       (Some (mkMCPCall "send_message" (Some (SendMessageRequest.mk "" "")))))
  = mkResponse 200 (Json (SendMessageResponse.mk true "Message sent")).
Proof.
  apply (proj1 (handleMCPCall_acknowledges _) (SendMessageRequest.mk "" ""));
    reflexivity.
Defined.

(** A conversation without address between two others. *)
Lemma handleHistorySync_skips_unusable_conversation_witness :
  unusable_conversation sample_client anonymous_conversation ∧
  handleHistorySync sample_client empty_store
    (mkHistorySync ([timed_conversation] ++ anonymous_conversation :: [id_less_conversation]))
  = handleHistorySync sample_client empty_store
      (mkHistorySync ([timed_conversation] ++ [id_less_conversation])).
Proof.
  assert (unusable_conversation sample_client anonymous_conversation) as Hbad
    by reflexivity.
  split; [exact Hbad|].
  exact (proj2 (handleHistorySync_skips_unusable_conversation sample_client empty_store
                  (mkSync empty_store [] 0) [timed_conversation] [id_less_conversation]
                  anonymous_conversation Hbad)).
Defined.

(** An image envelope between two text envelopes. *)
Lemma store_history_messages_skips_envelope_witness :
  skipped_envelope sample_client desk empty_envelope ∧
  store_history_messages sample_client desk "123@g.us"
    ([envelope None "sell 5" (Some 1700000200)] ++ empty_envelope
       :: [envelope None "buy 10" (Some 1700000100)])
    (mkSync sample_store [] 0)
  = store_history_messages sample_client desk "123@g.us"
      ([envelope None "sell 5" (Some 1700000200)]
         ++ [envelope None "buy 10" (Some 1700000100)])
      (mkSync sample_store [] 0).
Proof.
  assert (skipped_envelope sample_client desk empty_envelope) as Hskip
    by (left; reflexivity).
  split; [exact Hskip|].
  exact (store_history_messages_skips_envelope sample_client desk "123@g.us"
           (mkSync sample_store [] 0) [envelope None "sell 5" (Some 1700000200)]
           [envelope None "buy 10" (Some 1700000100)] empty_envelope Hskip).
Defined.

(** Not logged in: the batch stops in the conversation with the own
    message, after ["sell 5"] was stored, and the conversation after it is
    not stored. *)
Lemma handleHistorySync_panics_when_not_logged_in_witness :
  let result := handleHistorySync logged_out_client empty_store
                  (mkHistorySync ([] ++ id_less_conversation :: [timed_conversation])) in
  result.2 = Panic ∧
  MessageRow.content <$> messages (sync_store result.1) = ["sell 5"].
Proof.
  intros result. split; [|reflexivity].
  apply (handleHistorySync_panics_when_not_logged_in logged_out_client empty_store []
           [timed_conversation] id_less_conversation
           (envelope (Some (mkKey (Some true) None None)) "buy 10" (Some 1700000100))).
  - reflexivity.
  - exists "123@g.us", desk. repeat split; try done; vm_compute; discriminate.
  - apply list_elem_of_further, list_elem_of_here.
  - eexists _, _. repeat split; try reflexivity. discriminate.
Defined.

(** A new chat enters the map, the known one keeps its time. *)
Lemma GetChats_after_StoreChat_witness :
  GetChats Some (StoreChat sample_store "456@s.whatsapp.net" "Ann" 9).1
  = <["456@s.whatsapp.net" := 9]> (GetChats Some sample_store).
Proof.
  apply (GetChats_after_StoreChat Some sample_store "456@s.whatsapp.net" "Ann" 9).
  apply NoDup_singleton.
Defined.

(** Two conversations, handled twice. *)
Lemma handleHistorySync_replay_witness :
  let batch := mkHistorySync [id_less_conversation; timed_conversation] in
  let once := handleHistorySync sample_client sample_store batch in
  let twice := handleHistorySync sample_client (sync_store once.1) batch in
  sync_store twice.1 = sync_store once.1 ∧ syncedCount once.1 = 3%nat.
Proof.
  intros batch once twice. split; [|reflexivity].
  apply (handleHistorySync_replay sample_client (JID.mk "999" "s.whatsapp.net")
           sample_store batch).
  reflexivity.
Defined.

(** A text with an image part in the known chat, through [handleEvent]. *)
Lemma handleEvent_then_select_witness :
  let after := (handleEvent sample_store
                            (EvtMessage (text_and_image_event "m2" "look" 8))).1 in
  select_message ("m2", "123@g.us") (messages after)
  = [MessageRow.mk "m2" "123@g.us" "555@s.whatsapp.net" "look" 8 false "image"] ∧
  chats after = [ChatRow.mk "123@g.us" "Desk" 5].
Proof.
  intros after.
  destruct (handleEvent_then_select sample_store (text_and_image_event "m2" "look" 8))
    as (Hsel & Hchats & _).
  - apply list_elem_of_here.
  - discriminate.
  - split; [exact Hsel|exact Hchats].
Defined.
